(** * scan.c: the barcode scanner acquisition loop

    A shallow embedding of [scan-src/scan.c].  The program powers a USB
    barcode scanner through a GPIO pin, waits with [poll] for the scanner's
    key event device to become readable, decodes the key events into a
    line of ASCII text and prints it.

    The C integers are modelled as [Z]; the one place where the width of a
    type decides the behaviour (the comparison of the [int] [readstatus]
    with the [size_t] [sizeof(keyevent)]) spells the conversion out.  The
    external world (results of [poll] and [read], the indeterminate
    initial contents of the automatic variables) is an explicit record,
    and every library call the program makes is logged in a trace. *)

From Stdlib Require Import ZArith Ascii String Bool Lia.
From stdpp Require Import base list.

Local Open Scope Z_scope.

(** ** Constants *)

(** [#define MAXCODE 64], [#define SCANPIN 25]. *)
Definition MAXCODE : Z := 64.
Definition SCANPIN : Z := 25.

(** [limits.h]: [int] is 32 bits wide on every Linux ABI. *)
Definition INT_MAX : Z := 2147483647.

(** [char *device]. *)
Definition device : string :=
  "/dev/input/by-id/usb-WIT_Electron_Company_WIT_122-UFS_V2.03-event-kbd".

(** Event type and key codes of [linux/input-event-codes.h].  They are
    abbreviations so that [keymap] can [switch] on them as the source does. *)
Abbreviation EV_KEY := 1 (only parsing).
Abbreviation KEY_1 := 2 (only parsing).
Abbreviation KEY_2 := 3 (only parsing).
Abbreviation KEY_3 := 4 (only parsing).
Abbreviation KEY_4 := 5 (only parsing).
Abbreviation KEY_5 := 6 (only parsing).
Abbreviation KEY_6 := 7 (only parsing).
Abbreviation KEY_7 := 8 (only parsing).
Abbreviation KEY_8 := 9 (only parsing).
Abbreviation KEY_9 := 10 (only parsing).
Abbreviation KEY_0 := 11 (only parsing).
Abbreviation KEY_MINUS := 12 (only parsing).
Abbreviation KEY_EQUAL := 13 (only parsing).
Abbreviation KEY_Q := 16 (only parsing).
Abbreviation KEY_W := 17 (only parsing).
Abbreviation KEY_E := 18 (only parsing).
Abbreviation KEY_R := 19 (only parsing).
Abbreviation KEY_T := 20 (only parsing).
Abbreviation KEY_Y := 21 (only parsing).
Abbreviation KEY_U := 22 (only parsing).
Abbreviation KEY_I := 23 (only parsing).
Abbreviation KEY_O := 24 (only parsing).
Abbreviation KEY_P := 25 (only parsing).
Abbreviation KEY_LEFTBRACE := 26 (only parsing).
Abbreviation KEY_RIGHTBRACE := 27 (only parsing).
Abbreviation KEY_ENTER := 28 (only parsing).
Abbreviation KEY_A := 30 (only parsing).
Abbreviation KEY_S := 31 (only parsing).
Abbreviation KEY_D := 32 (only parsing).
Abbreviation KEY_F := 33 (only parsing).
Abbreviation KEY_G := 34 (only parsing).
Abbreviation KEY_H := 35 (only parsing).
Abbreviation KEY_J := 36 (only parsing).
Abbreviation KEY_K := 37 (only parsing).
Abbreviation KEY_L := 38 (only parsing).
Abbreviation KEY_SEMICOLON := 39 (only parsing).
Abbreviation KEY_APOSTROPHE := 40 (only parsing).
Abbreviation KEY_GRAVE := 41 (only parsing).
Abbreviation KEY_LEFTSHIFT := 42 (only parsing).
Abbreviation KEY_BACKSLASH := 43 (only parsing).
Abbreviation KEY_Z := 44 (only parsing).
Abbreviation KEY_X := 45 (only parsing).
Abbreviation KEY_C := 46 (only parsing).
Abbreviation KEY_V := 47 (only parsing).
Abbreviation KEY_B := 48 (only parsing).
Abbreviation KEY_N := 49 (only parsing).
Abbreviation KEY_M := 50 (only parsing).
Abbreviation KEY_COMMA := 51 (only parsing).
Abbreviation KEY_DOT := 52 (only parsing).
Abbreviation KEY_SLASH := 53 (only parsing).
Abbreviation KEY_RIGHTSHIFT := 54 (only parsing).
Abbreviation KEY_SPACE := 57 (only parsing).

(** The two data models Linux runs on.  They differ in the width of
    [long] and [size_t] and in the size of [struct input_event]. *)
Inductive abi := ILP32 | LP64.

Definition size_t_bits (a : abi) : Z :=
  match a with ILP32 => 32 | LP64 => 64 end.

Definition long_bits (a : abi) : Z :=
  match a with ILP32 => 32 | LP64 => 64 end.

(** [sizeof(struct input_event)]: a [struct timeval] followed by two
    16-bit fields and one 32-bit field. *)
Definition sizeof_keyevent (a : abi) : Z :=
  match a with ILP32 => 16 | LP64 => 24 end.

(** Whether an [int] is as wide as a pointer.  The file includes no
    [string.h], so [strerror] is implicitly declared to return [int], and
    what it returns reaches the [%s] of [fprintf] whole only where this
    holds. *)
Definition int_holds_pointer (a : abi) : bool :=
  match a with ILP32 => true | LP64 => false end.

(** Conversion of an [int] to [size_t], as the usual arithmetic
    conversions do when the two are compared. *)
Definition to_size_t (a : abi) (x : Z) : Z := x mod 2 ^ size_t_bits a.

(** The null character. *)
Definition NUL : ascii := "000"%char.

(** ** keymap *)

(** [char keymap(int code, int shift)] *)
Definition keymap (code shift : Z) : ascii :=
  if negb (shift =? 0) then
    match code with
    | KEY_1 => "!" | KEY_2 => "@" | KEY_3 => "#" | KEY_4 => "$"
    | KEY_5 => "%" | KEY_6 => "^" | KEY_7 => "&" | KEY_8 => "*"
    | KEY_9 => "(" | KEY_0 => ")" | KEY_MINUS => "_" | KEY_EQUAL => "+"
    | KEY_Q => "Q" | KEY_W => "W" | KEY_E => "E" | KEY_R => "R"
    | KEY_T => "T" | KEY_Y => "Y" | KEY_U => "U" | KEY_I => "I"
    | KEY_O => "O" | KEY_P => "P"
    | KEY_LEFTBRACE => "{" | KEY_RIGHTBRACE => "}"
    | KEY_A => "A" | KEY_S => "S" | KEY_D => "D" | KEY_F => "F"
    | KEY_G => "G" | KEY_H => "H" | KEY_J => "J" | KEY_K => "K"
    | KEY_L => "L"
    | KEY_SEMICOLON => ":" | KEY_APOSTROPHE => "034" | KEY_GRAVE => "~"
    | KEY_BACKSLASH => "|"
    | KEY_Z => "Z" | KEY_X => "X" | KEY_C => "C" | KEY_V => "V"
    | KEY_B => "B" | KEY_N => "N" | KEY_M => "M"
    | KEY_COMMA => "<" | KEY_DOT => ">" | KEY_SLASH => "?"
    | KEY_SPACE => " "
    | _ => NUL
    end%char
  else
    match code with
    | KEY_1 => "1" | KEY_2 => "2" | KEY_3 => "3" | KEY_4 => "4"
    | KEY_5 => "5" | KEY_6 => "6" | KEY_7 => "7" | KEY_8 => "8"
    | KEY_9 => "9" | KEY_0 => "0" | KEY_MINUS => "-" | KEY_EQUAL => "="
    | KEY_Q => "q" | KEY_W => "w" | KEY_E => "e" | KEY_R => "r"
    | KEY_T => "t" | KEY_Y => "y" | KEY_U => "u" | KEY_I => "i"
    | KEY_O => "o" | KEY_P => "p"
    | KEY_LEFTBRACE => "[" | KEY_RIGHTBRACE => "]"
    | KEY_A => "a" | KEY_S => "s" | KEY_D => "d" | KEY_F => "f"
    | KEY_G => "g" | KEY_H => "h" | KEY_J => "j" | KEY_K => "k"
    | KEY_L => "l"
    | KEY_SEMICOLON => ";" | KEY_APOSTROPHE => "'" | KEY_GRAVE => "`"
    | KEY_BACKSLASH => "\"
    | KEY_Z => "z" | KEY_X => "x" | KEY_C => "c" | KEY_V => "v"
    | KEY_B => "b" | KEY_N => "n" | KEY_M => "m"
    | KEY_COMMA => "," | KEY_DOT => "." | KEY_SLASH => "/"
    | KEY_SPACE => " "
    | _ => NUL
    end%char.

Arguments keymap : simpl never.

(** ** Data *)

(** [struct input_event] of [linux/input.h].  The [time] field is never
    read by the program and is left out. *)
Record input_event := {
  ev_type : Z;    (* __u16 type *)
  ev_code : Z;    (* __u16 code *)
  ev_value : Z    (* __s32 value *)
}.

(** The three variables of [scan] that the key events act on. *)
Record accum := {
  code : list ascii;     (* char code[MAXCODE] *)
  codecounter : Z;
  shift : Z
}.

(** The automatic variables of [scan] that change after their
    declaration. *)
Record locals := {
  acc : accum;
  err : Z;
  readstatus : Z;
  trycount : Z;
  keyevent : input_event
}.

Definition set_acc (v : accum) (l : locals) : locals :=
  {| acc := v; err := err l; readstatus := readstatus l;
     trycount := trycount l; keyevent := keyevent l |}.
Definition set_err (v : Z) (l : locals) : locals :=
  {| acc := acc l; err := v; readstatus := readstatus l;
     trycount := trycount l; keyevent := keyevent l |}.
Definition set_readstatus (v : Z) (l : locals) : locals :=
  {| acc := acc l; err := err l; readstatus := v;
     trycount := trycount l; keyevent := keyevent l |}.
Definition set_trycount (v : Z) (l : locals) : locals :=
  {| acc := acc l; err := err l; readstatus := readstatus l;
     trycount := v; keyevent := keyevent l |}.
Definition set_keyevent (v : input_event) (l : locals) : locals :=
  {| acc := acc l; err := err l; readstatus := readstatus l;
     trycount := trycount l; keyevent := v |}.

(** ** The outside world *)

(** What one call of [poll(&mypoll, 1, 800)] can give: one descriptor
    ready, the timeout, or a failure that sets [errno]. *)
Inductive poll_result :=
| PollReady
| PollTimeout
| PollError (errnum : Z).

Definition poll_ret (r : poll_result) : Z :=
  match r with PollReady => 1 | PollTimeout => 0 | PollError _ => -1 end.

Definition poll_errno (r : poll_result) (old : Z) : Z :=
  match r with PollError e => e | _ => old end.

(** What one call of [read(scanfd, &keyevent, sizeof(keyevent))] can
    give: a whole record; fewer bytes than a record, after which the
    variable holds [ev] (for zero bytes, what it held before); or a
    failure that sets [errno] and leaves the variable alone. *)
Inductive read_result :=
| ReadFull (ev : input_event)
| ReadShort (n : Z) (ev : input_event)
| ReadError (errnum : Z).

Definition read_ret (a : abi) (r : read_result) : Z :=
  match r with
  | ReadFull _ => sizeof_keyevent a
  | ReadShort n _ => n
  | ReadError _ => -1
  end.

Definition read_into (r : read_result) (old : input_event) : input_event :=
  match r with
  | ReadFull ev => ev
  | ReadShort _ ev => ev
  | ReadError _ => old
  end.

Definition read_errno (r : read_result) (old : Z) : Z :=
  match r with ReadError e => e | _ => old end.

(** Everything the program takes from outside: the result of the k-th
    [poll], the results of the successive [read]s (after the last one the
    device stays silent and [read] blocks), the value of [errno] on entry
    and what the uninitialised [code] and [keyevent] happen to hold. *)
Record world := {
  poll_at : nat -> poll_result;
  read_results : list read_result;
  errno_on_entry : Z;
  stack_code : nat -> ascii;
  stack_keyevent : input_event
}.

(** The part of the world that moves as the program runs. *)
Record sys := {
  polls_done : nat;
  reads_left : list read_result;
  errno : Z
}.

Inductive level := LOW | HIGH.

(** The calls the program makes, in order. *)
Inductive call :=
| Open (path : string)
| Fdopen
| IoctlGrab
| WiringPiSetupGpio
| PinModeOutput (pin : Z)
| DigitalWrite (pin : Z) (v : level)
| Poll (timeout_ms : Z)
| Read (count : Z)
| Printf (line : option string)
    (* printf("%s\n", code): the text before the line break, [None] when
       [code] holds no terminator *)
| FprintfStderr (msg : string) (errnum : Z)
    (* fprintf(stderr, "<msg>%s", strerror(errnum)) *)
| Usleep (usec : Z).

(** How a run of [scan] ends. *)
Inductive result :=
| Returns (v : Z)
| Blocks            (* a [read] that never returns *)
| StoresOutside     (* an assignment to [code[i]] outside the array *)
| PrintsUnterminated (* [printf] runs off the end of [code] *)
| DiesInFprintf     (* [fprintf] follows the cut-off pointer of [strerror] *)
| OutOfFuel.

(** ** The read loop *)

Definition is_shift_key (c : Z) : bool :=
  (c =? KEY_LEFTSHIFT) || (c =? KEY_RIGHTSHIFT).

(** [code[i] = c]; no result when [i] is outside the array. *)
Definition store (buf : list ascii) (i : Z) (c : ascii) : option (list ascii) :=
  if (0 <=? i) && (i <? MAXCODE) then Some (<[Z.to_nat i := c]> buf)
  else None.

(** The text [printf] finds in [code]: the characters before the first
    null one, nothing when there is none inside the array. *)
Fixpoint c_string (buf : list ascii) : option string :=
  match buf with
  | [] => None
  | c :: buf' =>
      if Ascii.eqb c NUL then Some EmptyString
      else String c <$> c_string buf'
  end.

Inductive flow :=
| Continue (b : accum)
| Break (b : accum)
| OutOfBounds.

(** The body of the inner [while], lines 197-220, on the event [ev] that
    [keyevent] holds. *)
Definition on_event (b : accum) (ev : input_event) : flow :=
  if ev_type ev =? EV_KEY then
    if (ev_value ev =? 0) && is_shift_key (ev_code ev) then
      Continue {| code := code b; codecounter := codecounter b; shift := 0 |}
    else if ev_value ev =? 1 then
      if (codecounter b =? MAXCODE - 1) || (ev_code ev =? KEY_ENTER) then
        match store (code b) (codecounter b) NUL with
        | Some buf =>
            Break {| code := buf; codecounter := codecounter b;
                     shift := shift b |}
        | None => OutOfBounds
        end
      else if is_shift_key (ev_code ev) then
        Continue {| code := code b; codecounter := codecounter b; shift := 1 |}
      else if negb (Ascii.eqb (keymap (ev_code ev) (shift b)) NUL) then
        match store (code b) (codecounter b)
                (keymap (ev_code ev) (shift b)) with
        | Some buf =>
            Continue {| code := buf; codecounter := codecounter b + 1;
                        shift := shift b |}
        | None => OutOfBounds
        end
      else Continue b
    else Continue b
  else Continue b.

Inductive loop_exit :=
| Exits (l : locals) (s : sys)   (* by [break] or by a negative [readstatus] *)
| Stuck (l : locals)             (* the next [read] never returns *)
| Faults.                        (* a store outside [code] *)

(** [while ((readstatus = read(...)) >= 0) { ... }], by recursion on the
    reads the world still holds. *)
Fixpoint read_loop (a : abi) (reads : list read_result) (done : nat) (e : Z)
    (l : locals) : list call * loop_exit :=
  match reads with
  | [] => ([Read (sizeof_keyevent a)], Stuck l)
  | r :: reads' =>
      let l1 := set_readstatus (read_ret a r)
                  (set_keyevent (read_into r (keyevent l)) l) in
      let e1 := read_errno r e in
      let s1 := {| polls_done := done; reads_left := reads'; errno := e1 |} in
      if readstatus l1 >=? 0 then
        match on_event (acc l1) (keyevent l1) with
        | Continue b =>
            let (t, x) := read_loop a reads' done e1 (set_acc b l1) in
            (Read (sizeof_keyevent a) :: t, x)
        | Break b => ([Read (sizeof_keyevent a)], Exits (set_acc b l1) s1)
        | OutOfBounds => ([Read (sizeof_keyevent a)], Faults)
        end
      else ([Read (sizeof_keyevent a)], Exits l1 s1)
  end.

(** ** scan *)

Definition do_poll (w : world) (s : sys) : Z * sys :=
  let r := poll_at w (polls_done s) in
  (poll_ret r,
   {| polls_done := S (polls_done s); reads_left := reads_left s;
      errno := poll_errno r (errno s) |}).

Inductive body_exit :=
| Falls (l : locals) (s : sys)   (* control reaches line 237 *)
| Leaves (r : result).           (* [return], or no way on *)

(** Lines 185-235: the body of the outer [while] up to the restart of the
    scanner. *)
Definition try_once (a : abi) (w : world) (s : sys) (l : locals)
    : list call * body_exit :=
  let (pr, s1) := do_poll w s in
  let l1 := set_err pr l in
  let pre := [DigitalWrite SCANPIN HIGH; Poll 800] in
  if negb (err l1 =? 0) then
    match read_loop a (reads_left s1) (polls_done s1) (errno s1) l1 with
    | (t, Exits l2 s2) =>
        if to_size_t a (readstatus l2) <? sizeof_keyevent a then
          if int_holds_pointer a then
            (pre ++ t ++ [FprintfStderr "Error occurred scanning: " (errno s2);
                          DigitalWrite SCANPIN LOW],
             Leaves (Returns (-1)))
          else (pre ++ t, Leaves DiesInFprintf)
        else
          match c_string (code (acc l2)) with
          | Some line => (pre ++ t ++ [Printf (Some line)], Falls l2 s2)
          | None => (pre ++ t ++ [Printf None], Leaves PrintsUnterminated)
          end
    | (t, Stuck _) => (pre ++ t, Leaves Blocks)
    | (t, Faults) => (pre ++ t, Leaves StoresOutside)
    end
  else if err l1 <? 0 then
    if int_holds_pointer a then
      (pre ++ [FprintfStderr "Error occurred polling: " (errno s1);
               DigitalWrite SCANPIN LOW],
       Leaves (Returns (-1)))
    else (pre, Leaves DiesInFprintf)
  else (pre, Falls l1 s1).

(** Lines 237-240: scanner off, the settle time. *)
Definition restart : list call := [DigitalWrite SCANPIN LOW; Usleep 200000].

(** [while (trycount < tries && !err) { ... } return 0;] *)
Fixpoint scan_while (fuel : nat) (a : abi) (w : world) (tries : Z)
    (s : sys) (l : locals) : list call * result :=
  match fuel with
  | O => ([], OutOfFuel)
  | S fuel' =>
      if (trycount l <? tries) && (err l =? 0) then
        match try_once a w s l with
        | (t, Leaves r) => (t, r)
        | (t, Falls l1 s1) =>
            let (t', r) :=
              scan_while fuel' a w tries s1
                (set_trycount (trycount l1 + 1) l1) in
            (t ++ restart ++ t', r)
        end
      else ([], Returns 0)
  end.

Definition setup : list call :=
  [Open device; Fdopen; IoctlGrab; WiringPiSetupGpio; PinModeOutput SCANPIN].

Definition initial_accum (w : world) : accum :=
  {| code := map (stack_code w) (seq 0 (Z.to_nat MAXCODE));
     codecounter := 0; shift := 0 |}.

Definition initial_locals (w : world) : locals :=
  {| acc := initial_accum w;
     err := 0; readstatus := 0; trycount := 0;
     keyevent := stack_keyevent w |}.

Definition initial_sys (w : world) : sys :=
  {| polls_done := 0%nat; reads_left := read_results w;
     errno := errno_on_entry w |}.

(** [int scan(const int tries)].  One pass through the loop raises
    [trycount] by one, so [tries] passes and the last test need
    [tries + 1] units of fuel. *)
Definition scan (a : abi) (tries : Z) (w : world) : list call * result :=
  let (t, r) := scan_while (S (Z.to_nat tries)) a w tries
                  (initial_sys w) (initial_locals w) in
  (setup ++ t, r).

(** ** main *)

(** [isspace] in the C locale. *)
Definition isspace (c : ascii) : bool :=
  let n := Z.of_N (N_of_ascii c) in
  (n =? 32) || ((9 <=? n) && (n <=? 13)).

Definition digit_value (c : ascii) : option Z :=
  let n := Z.of_N (N_of_ascii c) in
  if (48 <=? n) && (n <=? 57) then Some (n - 48) else None.

Fixpoint skip_spaces (s : string) : string :=
  match s with
  | String c s' => if isspace c then skip_spaces s' else s
  | EmptyString => s
  end.

(** The value of the longest run of decimal digits at the head of [s],
    after [acc]. *)
Fixpoint digits_value (acc : Z) (s : string) : Z :=
  match s with
  | String c s' =>
      match digit_value c with
      | Some d => digits_value (10 * acc + d) s'
      | None => acc
      end
  | EmptyString => acc
  end.

(** [strtol(s, NULL, 10)] of the C library: white space, an optional
    sign, decimal digits; zero when no digit is there; the nearest
    [long] when the number does not fit. *)
Definition strtol (a : abi) (s : string) : Z :=
  let s1 := skip_spaces s in
  let v :=
    match s1 with
    | String "-" s2 => - digits_value 0 s2
    | String "+" s2 => digits_value 0 s2
    | _ => digits_value 0 s1
    end in
  Z.max (- 2 ^ (long_bits a - 1)) (Z.min (2 ^ (long_bits a - 1) - 1) v).

(** Conversion of a [long] to [int]. *)
Definition to_int (x : Z) : Z := (x + 2 ^ 31) mod 2 ^ 32 - 2 ^ 31.

(** [atoi(s)] of the C library, which is [(int) strtol(s, NULL, 10)]. *)
Definition atoi (a : abi) (s : string) : Z := to_int (strtol a s).

(** The argument [main] hands to [scan]: the [switch (argc)] of lines
    246-253, where [argc] is the length of [argv]. *)
Definition main_tries (a : abi) (argv : list string) : Z :=
  match argv with
  | [_] => INT_MAX
  | [_; arg] => atoi a arg
  | _ => INT_MAX
  end.

(** [int main(int argc, char *argv[])]: every branch of the [switch]
    returns what [scan] returns. *)
Definition main (a : abi) (argv : list string) (w : world)
    : list call * result :=
  scan a (main_tries a argv) w.


(** ** Worlds and events used in statements *)

Definition press (c : Z) : input_event :=
  {| ev_type := EV_KEY; ev_code := c; ev_value := 1 |}.
Definition release (c : Z) : input_event :=
  {| ev_type := EV_KEY; ev_code := c; ev_value := 0 |}.
Definition autorepeat (c : Z) : input_event :=
  {| ev_type := EV_KEY; ev_code := c; ev_value := 2 |}.

(** A world whose stack holds [junk] in every byte of [code], with the
    given polls and reads. *)
Definition test_world (junk : ascii) (p : nat -> poll_result)
    (rs : list read_result) : world :=
  {| poll_at := p; read_results := rs; errno_on_entry := 0;
     stack_code := fun _ => junk;
     stack_keyevent := {| ev_type := 0; ev_code := 0; ev_value := 0 |} |}.

(** The scanner answers the first poll and sends a press of Enter. *)
Definition world_enter_only : world :=
  test_world "x" (fun _ => PollReady) [ReadFull (press KEY_ENTER)].

(** The scanner sends 63 presses of the A key and then stays silent. *)
Definition world_63_presses : world :=
  test_world "#" (fun _ => PollReady)
    (replicate 63%nat (ReadFull (press KEY_A))).

(** The same, followed by a 64th press of the A key. *)
Definition world_64_presses : world :=
  test_world "#" (fun _ => PollReady)
    (replicate 63%nat (ReadFull (press KEY_A)) ++ [ReadFull (press KEY_A)]).

(** The scanner answers the first poll, one key press arrives, and the
    next [read] fails with [ENODEV] (19), as when the scanner is
    unplugged. *)
Definition world_read_fails : world :=
  test_world NUL (fun _ => PollReady) [ReadFull (press KEY_A); ReadError 19].

(** The first poll fails with [EINTR] (4); the device then delivers a
    press of the A key and one of Enter. *)
Definition world_poll_fails : world :=
  test_world NUL (fun _ => PollError 4)
    [ReadFull (press KEY_A); ReadFull (press KEY_ENTER)].

(** The scanner never answers. *)
Definition world_silent : world :=
  test_world NUL (fun _ => PollTimeout) [].

(** The calls that follow the first [printf] of a trace. *)
Fixpoint calls_after_print (t : list call) : list call :=
  match t with
  | [] => []
  | Printf _ :: t' => t'
  | _ :: t' => calls_after_print t'
  end.

(** The scanner answers the first poll and sends a press of the A key;
    the next [read] returns 12 bytes only, after which [keyevent] reads
    as a press of Enter. *)
Definition world_short_enter : world :=
  test_world "#" (fun _ => PollReady)
    [ReadFull (press KEY_A); ReadShort 12 (press KEY_ENTER)].

(** The scanner answers the first poll and sends a press of the A key;
    the next [read] returns no byte, so that [keyevent] still holds that
    press; a press of Enter follows. *)
Definition world_empty_read : world :=
  test_world "#" (fun _ => PollReady)
    [ReadFull (press KEY_A); ReadShort 0 (press KEY_A);
     ReadFull (press KEY_ENTER)].

(** The number of calls of [poll] in a trace. *)
Fixpoint polls_in (t : list call) : nat :=
  match t with
  | [] => 0%nat
  | Poll _ :: t' => S (polls_in t')
  | _ :: t' => polls_in t'
  end.

(** One try that sees nothing: scanner on, the wait, scanner off, the
    settle time. *)
Definition idle_try : list call :=
  [DigitalWrite SCANPIN HIGH; Poll 800] ++ restart.

Fixpoint idle_tries (n : nat) : list call :=
  match n with
  | O => []
  | S n' => idle_try ++ idle_tries n'
  end.

(** The first [k] polls time out and the next one does not. *)
Definition first_wake (w : world) (k : nat) : Prop :=
  (forall j, (j < k)%nat -> poll_at w j = PollTimeout) /\
  poll_at w k <> PollTimeout.

(** The loop body run on each of [evs] in turn, as long as it does not
    leave the loop. *)
Fixpoint accumulate (evs : list input_event) (b : accum) : option accum :=
  match evs with
  | [] => Some b
  | ev :: evs' =>
      match on_event b ev with
      | Continue b' => accumulate evs' b'
      | _ => None
      end
  end.

(** The characters decoded so far. *)
Definition text (b : accum) : string :=
  string_of_list_ascii (take (Z.to_nat (codecounter b)) (code b)).

(** A key with an entry in the tables of [keymap]. *)
Definition has_mapping (c : Z) : bool := negb (Ascii.eqb (keymap c 0) NUL).

(** The bounds of the accumulation state. *)
Definition buffer_ok (b : accum) : Prop :=
  length (code b) = Z.to_nat MAXCODE /\
  0 <= codecounter b <= MAXCODE - 1 /\
  (shift b = 0 \/ shift b = 1).

(** The bounds, and no null character among the characters decoded. *)
Definition accum_ok (b : accum) : Prop :=
  buffer_ok b /\
  Forall (fun c => c <> NUL) (take (Z.to_nat (codecounter b)) (code b)).

(** The diagnostics a trace writes to standard error: message and
    [errno] of each. *)
Fixpoint stderr_of (t : list call) : list (string * Z) :=
  match t with
  | [] => []
  | FprintfStderr m e :: t' => (m, e) :: stderr_of t'
  | _ :: t' => stderr_of t'
  end.

(** The lines a trace writes to standard output. *)
Fixpoint stdout_of (t : list call) : list (option string) :=
  match t with
  | [] => []
  | Printf line :: t' => line :: stdout_of t'
  | _ :: t' => stdout_of t'
  end.

(** The state in which the try after [k] idle ones starts. *)
Definition sys_at (w : world) (k : nat) : sys :=
  {| polls_done := k; reads_left := read_results w;
     errno := errno_on_entry w |}.

Definition locals_at (w : world) (k : nat) : locals :=
  set_trycount (Z.of_nat k) (initial_locals w).

(** The calls of a try whose poll came back with something, up to the
    end of the read loop. *)
Definition woken_try (a : abi) (k reads : nat) : list call :=
  setup ++ idle_tries k ++ [DigitalWrite SCANPIN HIGH; Poll 800]
    ++ replicate reads (Read (sizeof_keyevent a)).

(** The code of a character. *)
Definition char_code (c : ascii) : Z := Z.of_N (N_of_ascii c).

(** The printable characters of ASCII, the space included. *)
Definition printable (c : ascii) : bool :=
  (32 <=? char_code c) && (char_code c <=? 126).

(** The level the last [digitalWrite] of a trace left the pin at, [cur]
    when the trace has none. *)
Fixpoint pin_from (cur : option level) (t : list call) : option level :=
  match t with
  | [] => cur
  | DigitalWrite _ v :: t' => pin_from (Some v) t'
  | _ :: t' => pin_from cur t'
  end.

Definition pin_after (t : list call) : option level := pin_from None t.

(** The event the loop body sees after a [read] that did not fail. *)
Definition delivered (r : read_result) : option input_event :=
  match r with
  | ReadFull ev => Some ev
  | ReadShort n ev => if n >=? 0 then Some ev else None
  | ReadError _ => None
  end.

(** The events the loop body sees on a run of reads none of which
    fails. *)
Fixpoint deliveries (rs : list read_result) : option (list input_event) :=
  match rs with
  | [] => Some []
  | r :: rs' =>
      match delivered r, deliveries rs' with
      | Some ev, Some evs => Some (ev :: evs)
      | _, _ => None
      end
  end.

(** * Properties *)

(** ** keymap *)

Example keymap_A_lower : keymap KEY_A 0 = "a"%char.
Proof. reflexivity. Qed.

Example keymap_A_upper : keymap KEY_A 1 = "A"%char.
Proof. reflexivity. Qed.

Lemma keymap_enter s : keymap KEY_ENTER s = NUL.
Proof. unfold keymap. destruct (s =? 0); reflexivity. Qed.

Lemma keymap_shift_key c s : is_shift_key c = true -> keymap c s = NUL.
Proof.
  unfold is_shift_key. intros H.
  apply orb_true_iff in H as [H | H]; apply Z.eqb_eq in H; subst c;
    unfold keymap; destruct (s =? 0); reflexivity.
Qed.

Lemma has_mapping_not_enter c : has_mapping c = true -> (c =? KEY_ENTER) = false.
Proof.
  intros H. destruct (Z.eqb_spec c 28) as [-> | _]; [discriminate H | reflexivity].
Qed.

Lemma has_mapping_not_shift c : has_mapping c = true -> is_shift_key c = false.
Proof.
  intros H. destruct (is_shift_key c) eqn:E; [| reflexivity].
  unfold has_mapping in H. rewrite (keymap_shift_key _ _ E) in H. discriminate H.
Qed.

(** ** The code buffer *)

Lemma store_Some buf i c :
  0 <= i < MAXCODE -> store buf i c = Some (<[Z.to_nat i := c]> buf).
Proof.
  intros H. unfold store.
  destruct (Z.leb_spec 0 i); [| lia].
  destruct (Z.ltb_spec i MAXCODE); [reflexivity | lia].
Qed.

Lemma eqb_NUL_false c : c <> NUL -> Ascii.eqb c NUL = false.
Proof. intros H. destruct (Ascii.eqb_spec c NUL); [contradiction | reflexivity]. Qed.

(** Once the terminator is stored at index [n], [printf] prints the [n]
    characters before it. *)
Lemma c_string_terminated (buf : list ascii) (n : nat) :
  (n < length buf)%nat ->
  Forall (fun c => c <> NUL) (take n buf) ->
  c_string (<[n := NUL]> buf) = Some (string_of_list_ascii (take n buf)).
Proof.
  revert n. induction buf as [| c buf IH]; intros n Hn Hall.
  - simpl in Hn. lia.
  - destruct n as [| n].
    + reflexivity.
    + simpl in *. apply Forall_cons in Hall as [Hc Hall].
      rewrite (eqb_NUL_false _ Hc), IH by (assumption || lia).
      reflexivity.
Qed.

Lemma initial_accum_ok w : accum_ok (initial_accum w).
Proof.
  split; [split; [reflexivity | split; [simpl; unfold MAXCODE; lia |]] |].
  - left. reflexivity.
  - constructor.
Qed.

(** The loop body keeps the bounds and never stores outside the array. *)
Lemma on_event_ok b ev :
  accum_ok b ->
  match on_event b ev with
  | Continue b' | Break b' => accum_ok b'
  | OutOfBounds => False
  end.
Proof.
  intros Hb. pose proof Hb as [(Hlen & Hcc & Hsh) Hnul].
  unfold MAXCODE in Hlen, Hcc. unfold on_event.
  destruct (ev_type ev =? 1); [| exact Hb].
  destruct ((ev_value ev =? 0) && is_shift_key (ev_code ev)).
  { split; [split; [| split] |]; simpl; auto. }
  destruct (ev_value ev =? 1); [| exact Hb].
  assert (Hend : accum_ok {| code := <[Z.to_nat (codecounter b) := NUL]> (code b);
                             codecounter := codecounter b; shift := shift b |}).
  { split; [split; [| split] |]; simpl; auto.
    - rewrite length_insert. exact Hlen.
    - rewrite take_insert_ge by lia. exact Hnul. }
  destruct (Z.eqb_spec (codecounter b) (MAXCODE - 1)) as [Hfull | Hroom];
    unfold MAXCODE in *; simpl orb.
  { rewrite store_Some by (unfold MAXCODE; lia). exact Hend. }
  destruct (ev_code ev =? 28).
  { rewrite store_Some by (unfold MAXCODE; lia). exact Hend. }
  destruct (is_shift_key (ev_code ev)).
  { split; [split; [| split] |]; simpl; auto. }
  destruct (Ascii.eqb_spec (keymap (ev_code ev) (shift b)) NUL) as [_ | Hc];
    simpl negb; cbv iota; [exact Hb |].
  rewrite store_Some by (unfold MAXCODE; lia).
  split; [split; [| split] |]; simpl; auto.
  - rewrite length_insert. exact Hlen.
  - unfold MAXCODE. lia.
  - replace (Z.to_nat (codecounter b + 1)) with (S (Z.to_nat (codecounter b))) by lia.
    rewrite (take_S_r _ _ (keymap (ev_code ev) (shift b)))
      by (apply list_lookup_insert_eq; lia).
    rewrite take_insert_ge by lia.
    apply Forall_app. split; [exact Hnul |]. repeat constructor. exact Hc.
Qed.

(** ** The read loop *)

Lemma sizeof_keyevent_geb a : (sizeof_keyevent a >=? 0) = true.
Proof. destruct a; reflexivity. Qed.

(** A whole record is not taken for a short one. *)
Lemma full_read_passes a :
  (to_size_t a (sizeof_keyevent a) <? sizeof_keyevent a) = false.
Proof. destruct a; reflexivity. Qed.

(** Nor is a failed [read]: the [-1] is compared as a [size_t]. *)
Lemma failed_read_passes a :
  (to_size_t a (-1) <? sizeof_keyevent a) = false.
Proof. destruct a; reflexivity. Qed.

(** The loop only calls [read]. *)
Lemma read_loop_calls a reads d e l :
  exists n, fst (read_loop a reads d e l) = replicate (S n) (Read (sizeof_keyevent a)).
Proof.
  revert e l. induction reads as [| r reads IH]; intros e l; simpl.
  - exists 0%nat. reflexivity.
  - destruct (_ >=? 0); [| exists 0%nat; reflexivity].
    destruct (on_event _ _); try (exists 0%nat; reflexivity).
    match goal with |- context [read_loop a reads d ?e' ?l'] =>
      destruct (IH e' l') as [n Hn]; destruct (read_loop a reads d e' l') end.
    simpl in *. exists (S n). rewrite Hn. reflexivity.
Qed.

(** The loop leaves [err] and [trycount] alone. *)
Lemma read_loop_frame a reads d e l l2 s2 :
  snd (read_loop a reads d e l) = Exits l2 s2 ->
  err l2 = err l /\ trycount l2 = trycount l.
Proof.
  revert e l. induction reads as [| r reads IH]; intros e l; simpl.
  - discriminate.
  - destruct (_ >=? 0); simpl; [| intros [= <- <-]; auto].
    destruct (on_event _ _); simpl; try discriminate; [| intros [= <- <-]; auto].
    match goal with |- context [read_loop a reads d ?e' ?l'] =>
      specialize (IH e' l'); destruct (read_loop a reads d e' l') end.
    simpl in *. intros H. apply IH in H. exact H.
Qed.

(** The loop keeps the bounds of the buffer and never stores outside it,
    whatever the reads give. *)
Lemma read_loop_ok a reads d e l :
  accum_ok (acc l) ->
  match snd (read_loop a reads d e l) with
  | Exits l2 _ | Stuck l2 => accum_ok (acc l2)
  | Faults => False
  end.
Proof.
  revert e l. induction reads as [| r reads IH]; intros e l Hok; simpl.
  - exact Hok.
  - destruct (_ >=? 0); simpl; [| exact Hok].
    pose proof (on_event_ok (acc l) (read_into r (keyevent l)) Hok) as Hstep.
    destruct (on_event _ _); simpl; auto.
    match goal with |- context [read_loop a reads d ?e' ?l'] =>
      specialize (IH e' l'); destruct (read_loop a reads d e' l') end.
    simpl in *. apply IH. exact Hstep.
Qed.

(** Whole records on which the body does not leave the loop are read one
    after the other. *)
Lemma read_loop_accumulate a evs rest d e l b :
  accumulate evs (acc l) = Some b ->
  exists l',
    acc l' = b /\ err l' = err l /\ trycount l' = trycount l /\
    read_loop a (map ReadFull evs ++ rest) d e l =
      (replicate (length evs) (Read (sizeof_keyevent a))
         ++ fst (read_loop a rest d e l'),
       snd (read_loop a rest d e l')).
Proof.
  revert l. induction evs as [| ev evs IH]; intros l Hacc; simpl in Hacc.
  - injection Hacc as <-. exists l.
    repeat split. simpl. destruct (read_loop a rest d e l). reflexivity.
  - destruct (on_event (acc l) ev) as [b1 | |] eqn:Hstep; try discriminate.
    destruct (IH (set_acc b1 (set_readstatus (sizeof_keyevent a)
                                (set_keyevent ev l))) Hacc)
      as (l' & Hb & Herr & Htc & Hrun).
    exists l'. repeat split; try assumption.
    simpl. rewrite sizeof_keyevent_geb, Hstep.
    simpl in Hrun. rewrite Hrun. reflexivity.
Qed.

(** ** The outer loop *)

(** [n] polls that time out make [n] idle tries. *)
Lemma scan_while_idle a w tries rs e b rdst kev :
  forall (n fuel p : nat) (tc : Z),
    (forall j, (j < n)%nat -> poll_at w (p + j) = PollTimeout) ->
    tc + Z.of_nat n <= tries ->
    scan_while (n + fuel) a w tries
      {| polls_done := p; reads_left := rs; errno := e |}
      {| acc := b; err := 0; readstatus := rdst; trycount := tc;
         keyevent := kev |} =
    (idle_tries n ++
       fst (scan_while fuel a w tries
              {| polls_done := p + n; reads_left := rs; errno := e |}
              {| acc := b; err := 0; readstatus := rdst;
                 trycount := tc + Z.of_nat n; keyevent := kev |}),
     snd (scan_while fuel a w tries
            {| polls_done := p + n; reads_left := rs; errno := e |}
            {| acc := b; err := 0; readstatus := rdst;
               trycount := tc + Z.of_nat n; keyevent := kev |})).
Proof.
  induction n as [| n IH]; intros fuel p tc Hidle Htc.
  - rewrite Nat.add_0_r, Z.add_0_r. simpl.
    destruct (scan_while _ _ _ _ _ _). reflexivity.
  - change (S n + fuel)%nat with (S (n + fuel)).
    cbn [scan_while trycount err].
    destruct (Z.ltb_spec tc tries); [| lia]. simpl andb. cbv iota.
    assert (Hp : poll_at w p = PollTimeout).
    { rewrite <- (Nat.add_0_r p). apply Hidle. lia. }
    unfold try_once, do_poll. cbn [polls_done reads_left errno]. rewrite Hp.
    cbn -[scan_while idle_tries restart Z.add].
    change (set_trycount (tc + 1) (set_err 0 _))
      with {| acc := b; err := 0; readstatus := rdst; trycount := tc + 1;
              keyevent := kev |}.
    rewrite (IH fuel (S p) (tc + 1)).
    + replace (S p + n)%nat with (p + S n)%nat by lia.
      replace (tc + 1 + Z.of_nat n) with (tc + Z.of_nat (S n)) by lia.
      reflexivity.
    + intros j Hj. replace (S p + j)%nat with (p + S j)%nat by lia.
      apply Hidle. lia.
    + lia.
Qed.

(** A try whose poll does not time out runs the read loop: the test of
    line 188 holds for a negative [err] as well. *)
Lemma try_once_woken a w s l :
  poll_at w (polls_done s) <> PollTimeout ->
  try_once a w s l =
    let r := poll_at w (polls_done s) in
    let pre := [DigitalWrite SCANPIN HIGH; Poll 800] in
    match read_loop a (reads_left s) (S (polls_done s))
            (poll_errno r (errno s)) (set_err (poll_ret r) l) with
    | (t, Exits l2 s2) =>
        if to_size_t a (readstatus l2) <? sizeof_keyevent a then
          if int_holds_pointer a then
            (pre ++ t ++ [FprintfStderr "Error occurred scanning: " (errno s2);
                          DigitalWrite SCANPIN LOW],
             Leaves (Returns (-1)))
          else (pre ++ t, Leaves DiesInFprintf)
        else
          match c_string (code (acc l2)) with
          | Some line => (pre ++ t ++ [Printf (Some line)], Falls l2 s2)
          | None => (pre ++ t ++ [Printf None], Leaves PrintsUnterminated)
          end
    | (t, Stuck _) => (pre ++ t, Leaves Blocks)
    | (t, Faults) => (pre ++ t, Leaves StoresOutside)
    end.
Proof.
  intros Hw. unfold try_once, do_poll.
  destruct (poll_at w (polls_done s)); [reflexivity | contradiction | reflexivity].
Qed.

Lemma poll_ret_nonzero r : r <> PollTimeout -> poll_ret r <> 0.
Proof. destruct r; simpl; intros H; [lia | contradiction | lia]. Qed.

(** After such a try [err] is not zero. *)
Lemma try_once_falls_err a w s l t l1 s1 :
  poll_at w (polls_done s) <> PollTimeout ->
  try_once a w s l = (t, Falls l1 s1) ->
  err l1 <> 0.
Proof.
  intros Hw. rewrite (try_once_woken _ _ _ _ Hw). cbv zeta.
  destruct (read_loop _ _ _ _ _) as [t0 [l2 s2 | l2 |]] eqn:Hloop;
    try discriminate.
  destruct (_ <? _); [destruct (int_holds_pointer a); discriminate |].
  destruct (c_string _); [| discriminate].
  intros [= _ <- _].
  destruct (read_loop_frame a _ _ _ _ l2 s2 (f_equal snd Hloop)) as [-> _].
  simpl. apply poll_ret_nonzero. exact Hw.
Qed.

(** ** Decoding *)

Lemma accumulate_ok evs : forall b b',
  accum_ok b -> accumulate evs b = Some b' -> accum_ok b'.
Proof.
  induction evs as [| ev evs IH]; intros b b' Hok; simpl.
  - intros [= <-]. exact Hok.
  - pose proof (on_event_ok b ev Hok) as Hstep.
    destruct (on_event b ev); try discriminate. apply IH. exact Hstep.
Qed.

(** Leaving the loop by [break] stores the terminator behind the
    characters decoded and changes nothing else. *)
Lemma on_event_break b ev b' :
  accum_ok b -> on_event b ev = Break b' ->
  b' = {| code := <[Z.to_nat (codecounter b) := NUL]> (code b);
          codecounter := codecounter b; shift := shift b |}.
Proof.
  intros [(Hlen & Hcc & _) _]. unfold on_event.
  rewrite !store_Some by (unfold MAXCODE in *; lia).
  repeat match goal with
         | |- context [if ?c then _ else _] => destruct c
         end; congruence.
Qed.

Lemma break_text b ev b' :
  accum_ok b -> on_event b ev = Break b' ->
  c_string (code b') = Some (text b).
Proof.
  intros Hok Hbrk. rewrite (on_event_break b ev b' Hok Hbrk). simpl.
  destruct Hok as [(Hlen & Hcc & _) Hnul]. unfold MAXCODE in *.
  apply c_string_terminated; [lia | exact Hnul].
Qed.

Section WokenTry.

(** From here to the end of the section the first [k] polls time out,
    the next one does not, and the budget allows that try. *)
Variables (a : abi) (tries : Z) (w : world) (k : nat).
Hypothesis Hwake : first_wake w k.
Hypothesis Hbudget : Z.of_nat k < tries.

(** The whole of [scan] when the first [k] polls time out and the next
    one does not: [k] idle tries, the try that reads, and, when that
    try falls through, one restart of the scanner and the end of the
    loop. *)
Lemma scan_wakes :
  scan a tries w =
    match try_once a w (sys_at w k) (locals_at w k) with
    | (t, Leaves r) => (setup ++ idle_tries k ++ t, r)
    | (t, Falls _ _) => (setup ++ idle_tries k ++ t ++ restart, Returns 0)
    end.
Proof.
  destruct Hwake as [Hidle Hgo]. unfold scan.
  replace (S (Z.to_nat tries))
    with (k + S (S (Z.to_nat tries - k - 1)))%nat by lia.
  unfold initial_sys, initial_locals.
  rewrite scan_while_idle by (simpl; auto || lia).
  change (0 + k)%nat with k. change (0 + Z.of_nat k) with (Z.of_nat k).
  change {| polls_done := k; reads_left := read_results w;
            errno := errno_on_entry w |} with (sys_at w k).
  change {| acc := initial_accum w; err := 0; readstatus := 0;
            trycount := Z.of_nat k; keyevent := stack_keyevent w |}
    with (locals_at w k).
  cbn [scan_while].
  change (trycount (locals_at w k)) with (Z.of_nat k).
  change (err (locals_at w k)) with 0.
  destruct (Z.ltb_spec (Z.of_nat k) tries); [| lia]. simpl andb. cbv iota.
  destruct (try_once a w (sys_at w k) (locals_at w k)) as [t [l1 s1 | r]] eqn:Htry;
    [| reflexivity].
  apply try_once_falls_err in Htry; [| exact Hgo].
  change (err (set_trycount (trycount l1 + 1) l1)) with (err l1).
  destruct (Z.eqb_spec (err l1) 0); [contradiction |].
  rewrite andb_false_r. reflexivity.
Qed.

(** The run in which whole records [evs] keep the loop going and the
    whole record [ev] leaves it by [break]: the text decoded from [evs]
    is printed, the scanner is switched off, the settle time passes and
    [scan] returns 0 without another try. *)
Lemma scan_break evs ev rest b b' :
  read_results w = map ReadFull evs ++ ReadFull ev :: rest ->
  accumulate evs (initial_accum w) = Some b ->
  on_event b ev = Break b' ->
  scan a tries w =
    (woken_try a k (S (length evs)) ++ Printf (Some (text b)) :: restart,
     Returns 0).
Proof.
  intros Hreads Hacc Hbrk.
  rewrite scan_wakes.
  rewrite try_once_woken by apply Hwake. cbv zeta.
  cbn [sys_at polls_done reads_left errno]. rewrite Hreads.
  destruct (read_loop_accumulate a evs (ReadFull ev :: rest) (S k)
              (poll_errno (poll_at w k) (errno_on_entry w))
              (set_err (poll_ret (poll_at w k)) (locals_at w k)) b Hacc)
    as (l' & Hb & _ & _ & ->).
  cbn [read_loop read_ret read_into].
  change (readstatus (set_readstatus ?v _)) with v.
  rewrite sizeof_keyevent_geb.
  change (acc (set_readstatus _ (set_keyevent _ l'))) with (acc l').
  change (keyevent (set_readstatus _ (set_keyevent ?e _))) with e.
  rewrite Hb, Hbrk. cbn [fst snd].
  change (readstatus (set_acc _ (set_readstatus ?v _))) with v.
  rewrite full_read_passes.
  change (acc (set_acc ?v _)) with v.
  rewrite (break_text b ev b'); [| | exact Hbrk].
  - unfold woken_try. rewrite replicate_S_end.
    rewrite <- !app_assoc. reflexivity.
  - eapply accumulate_ok; [apply initial_accum_ok | exact Hacc].
Qed.

(** The run in which whole records [evs] keep the loop going and the
    next [read] fails: the loop ends, the test of line 222 compares the
    [-1] as a [size_t] and lets it pass, and [code] is printed as it
    stands. *)
Lemma scan_read_error evs e rest b :
  read_results w = map ReadFull evs ++ ReadError e :: rest ->
  accumulate evs (initial_accum w) = Some b ->
  scan a tries w =
    match c_string (code b) with
    | Some line =>
        (woken_try a k (S (length evs)) ++ Printf (Some line) :: restart,
         Returns 0)
    | None =>
        (woken_try a k (S (length evs)) ++ [Printf None], PrintsUnterminated)
    end.
Proof.
  intros Hreads Hacc.
  rewrite scan_wakes.
  rewrite try_once_woken by apply Hwake. cbv zeta.
  cbn [sys_at polls_done reads_left errno]. rewrite Hreads.
  destruct (read_loop_accumulate a evs (ReadError e :: rest) (S k)
              (poll_errno (poll_at w k) (errno_on_entry w))
              (set_err (poll_ret (poll_at w k)) (locals_at w k)) b Hacc)
    as (l' & Hb & _ & _ & ->).
  cbn [read_loop read_ret read_into].
  change (readstatus (set_readstatus ?v _)) with v.
  change (-1 >=? 0) with false. cbv iota. cbn [fst snd].
  change (readstatus (set_readstatus ?v _)) with v.
  rewrite failed_read_passes.
  change (acc (set_readstatus _ (set_keyevent _ l'))) with (acc l').
  rewrite Hb. unfold woken_try. rewrite replicate_S_end.
  destruct (c_string (code b)); rewrite <- !app_assoc; reflexivity.
Qed.

End WokenTry.

(** ** Traces *)

Lemma polls_in_app t1 t2 : polls_in (t1 ++ t2) = (polls_in t1 + polls_in t2)%nat.
Proof.
  induction t1 as [| c t1 IH]; [reflexivity |].
  destruct c; simpl; rewrite IH; reflexivity.
Qed.

Lemma stderr_of_app t1 t2 : stderr_of (t1 ++ t2) = stderr_of t1 ++ stderr_of t2.
Proof.
  induction t1 as [| c t1 IH]; [reflexivity |].
  destruct c; simpl; rewrite IH; reflexivity.
Qed.

Lemma stdout_of_app t1 t2 : stdout_of (t1 ++ t2) = stdout_of t1 ++ stdout_of t2.
Proof.
  induction t1 as [| c t1 IH]; [reflexivity |].
  destruct c; simpl; rewrite IH; reflexivity.
Qed.

Lemma idle_tries_quiet n :
  polls_in (idle_tries n) = n /\ stderr_of (idle_tries n) = [] /\
  stdout_of (idle_tries n) = [].
Proof.
  induction n as [| n (IH1 & IH2 & IH3)]; [repeat split |].
  simpl. rewrite IH1, IH2, IH3. repeat split.
Qed.

Lemma reads_quiet n c :
  polls_in (replicate n (Read c)) = 0%nat /\
  stderr_of (replicate n (Read c)) = [] /\
  stdout_of (replicate n (Read c)) = [].
Proof. induction n as [| n IH]; [repeat split | exact IH]. Qed.

Lemma woken_try_quiet a k n :
  polls_in (woken_try a k n) = S k /\ stderr_of (woken_try a k n) = [] /\
  stdout_of (woken_try a k n) = [].
Proof.
  unfold woken_try.
  destruct (idle_tries_quiet k) as (I1 & I2 & I3).
  destruct (reads_quiet n (sizeof_keyevent a)) as (R1 & R2 & R3).
  rewrite !polls_in_app, !stderr_of_app, !stdout_of_app, I1, I2, I3, R1, R2, R3.
  simpl. repeat split. lia.
Qed.

(** ** Key presses *)

(** A press of Enter leaves the loop whatever the buffer holds. *)
Lemma enter_breaks b :
  accum_ok b ->
  on_event b (press KEY_ENTER) =
    Break {| code := <[Z.to_nat (codecounter b) := NUL]> (code b);
             codecounter := codecounter b; shift := shift b |}.
Proof.
  intros [(_ & Hcc & _) _]. unfold on_event, press. cbn.
  rewrite orb_true_r, store_Some by (unfold MAXCODE in *; lia). reflexivity.
Qed.

(** Any key press leaves the loop once 63 characters are in. *)
Lemma full_breaks b ev :
  accum_ok b -> codecounter b = MAXCODE - 1 ->
  ev_type ev = EV_KEY -> ev_value ev = 1 ->
  on_event b ev =
    Break {| code := <[Z.to_nat (codecounter b) := NUL]> (code b);
             codecounter := codecounter b; shift := shift b |}.
Proof.
  intros [(_ & Hcc & _) _] Hfull Hty Hval. unfold on_event.
  rewrite Hty, Hval. change (1 =? 1) with true. change (1 =? 0) with false.
  cbn [andb]. rewrite store_Some by (unfold MAXCODE in *; lia).
  destruct (Z.eqb_spec (codecounter b) (MAXCODE - 1)); [reflexivity | contradiction].
Qed.

(** A press of a mapped key with the shift state clear and room left
    appends the unshifted character. *)
Lemma mapped_press_appends b c :
  accum_ok b -> shift b = 0 -> codecounter b < MAXCODE - 1 ->
  has_mapping c = true ->
  on_event b (press c) =
    Continue {| code := <[Z.to_nat (codecounter b) := keymap c 0]> (code b);
                codecounter := codecounter b + 1; shift := 0 |}.
Proof.
  intros [(_ & Hcc & _) _] Hsh Hroom Hmap. unfold on_event, press. cbn.
  rewrite (has_mapping_not_shift c Hmap), (has_mapping_not_enter c Hmap), Hsh.
  destruct (Z.eqb_spec (codecounter b) (MAXCODE - 1)); [lia |].
  unfold has_mapping in Hmap. cbn. rewrite Hmap.
  rewrite store_Some by (unfold MAXCODE in *; lia). reflexivity.
Qed.

(** Presses of mapped keys, as long as they fit, append their unshifted
    characters one by one. *)
Lemma accumulate_mapped cs : forall b,
  accum_ok b -> shift b = 0 ->
  Forall (fun c => has_mapping c = true) cs ->
  codecounter b + Z.of_nat (length cs) <= MAXCODE - 1 ->
  exists b',
    accumulate (map press cs) b = Some b' /\
    codecounter b' = codecounter b + Z.of_nat (length cs) /\
    shift b' = 0 /\
    take (Z.to_nat (codecounter b')) (code b') =
      take (Z.to_nat (codecounter b)) (code b) ++ map (fun c => keymap c 0) cs.
Proof.
  induction cs as [| c cs IH]; intros b Hok Hsh Hall Hfit.
  - exists b. simpl. rewrite Z.add_0_r, app_nil_r. auto.
  - apply Forall_cons in Hall as [Hc Hall].
    cbn [length] in Hfit. cbn [map accumulate].
    pose proof (on_event_ok b (press c) Hok) as Hok1.
    rewrite mapped_press_appends in * by (assumption || lia).
    destruct (IH _ Hok1 eq_refl Hall) as (b' & Hrun & Hcc' & Hsh' & Htake).
    { cbn [codecounter]. lia. }
    exists b'. cbn [codecounter code length] in *.
    destruct Hok as [(Hlen & Hcc & _) _]. unfold MAXCODE in *.
    repeat split; try assumption; [lia |].
    rewrite Htake.
    replace (Z.to_nat (codecounter b + 1)) with (S (Z.to_nat (codecounter b))) by lia.
    rewrite (take_S_r _ _ (keymap c 0)) by (apply list_lookup_insert_eq; lia).
    rewrite take_insert_ge by lia.
    rewrite <- app_assoc. reflexivity.
Qed.

(** * The statements of the specification *)

(** C7. A press of Enter ends the accumulation at once, whatever number
    of characters the buffer holds: after whole records [evs] that keep
    the loop going, the whole record of an Enter press makes the body
    store the terminator and [break], and [scan] prints the text decoded
    so far as one line and returns 0.  With no character decoded the
    line is empty. *)
Theorem enter_finalizes_at_any_length a tries w k evs rest b :
  first_wake w k -> Z.of_nat k < tries ->
  read_results w = map ReadFull evs ++ ReadFull (press KEY_ENTER) :: rest ->
  accumulate evs (initial_accum w) = Some b ->
  on_event b (press KEY_ENTER) =
    Break {| code := <[Z.to_nat (codecounter b) := NUL]> (code b);
             codecounter := codecounter b; shift := shift b |} /\
  scan a tries w =
    (woken_try a k (S (length evs)) ++ Printf (Some (text b)) :: restart,
     Returns 0) /\
  stdout_of (fst (scan a tries w)) = [Some (text b)] /\
  (codecounter b = 0 -> text b = EmptyString).
Proof.
  intros Hw Hk Hreads Hacc.
  assert (Hok : accum_ok b)
    by (eapply accumulate_ok; [apply initial_accum_ok | exact Hacc]).
  pose proof (enter_breaks b Hok) as Hbrk.
  pose proof (scan_break a tries w k Hw Hk evs _ rest b _ Hreads Hacc Hbrk) as Hrun.
  repeat split; try assumption.
  - rewrite Hrun. cbn [fst]. rewrite stdout_of_app.
    destruct (woken_try_quiet a k (S (length evs))) as (_ & _ & ->). reflexivity.
  - intros Hz. unfold text. rewrite Hz. reflexivity.
Qed.

(** C3, amended.  On the success path the scanner is switched off as on
    a timeout: after the line is printed the pin is driven LOW, the
    settle time passes, and the loop ends because [err] holds the
    non-zero result of the poll; [scan] returns 0, and the poll of the
    successful try was the last. *)
Theorem success_lowers_pin_then_returns a tries w k evs ev rest b b' :
  first_wake w k -> Z.of_nat k < tries ->
  read_results w = map ReadFull evs ++ ReadFull ev :: rest ->
  accumulate evs (initial_accum w) = Some b ->
  on_event b ev = Break b' ->
  scan a tries w =
    (woken_try a k (S (length evs))
       ++ [Printf (Some (text b)); DigitalWrite SCANPIN LOW; Usleep 200000],
     Returns 0) /\
  polls_in (fst (scan a tries w)) = S k.
Proof.
  intros Hw Hk Hreads Hacc Hbrk.
  pose proof (scan_break a tries w k Hw Hk evs ev rest b b' Hreads Hacc Hbrk) as Hrun.
  split; [exact Hrun |].
  rewrite Hrun. cbn [fst]. rewrite polls_in_app.
  destruct (woken_try_quiet a k (S (length evs))) as (-> & _ & _).
  simpl. lia.
Qed.

(** C4, amended.  Presses of [MAXCODE - 1] mapped keys fill the buffer;
    the next key press, of whatever key, ends the accumulation, and the
    63 characters are printed.  No Enter is needed, but one more press
    is. *)
Theorem full_buffer_finalized_by_next_press a tries w k cs ev rest :
  first_wake w k -> Z.of_nat k < tries ->
  length cs = Z.to_nat (MAXCODE - 1) ->
  Forall (fun c => has_mapping c = true) cs ->
  ev_type ev = EV_KEY -> ev_value ev = 1 ->
  read_results w = map ReadFull (map press cs) ++ ReadFull ev :: rest ->
  scan a tries w =
    (woken_try a k (Z.to_nat MAXCODE)
       ++ Printf (Some (string_of_list_ascii (map (fun c => keymap c 0) cs)))
       :: restart,
     Returns 0).
Proof.
  intros Hw Hk Hlen Hall Hty Hval Hreads.
  destruct (accumulate_mapped cs (initial_accum w) (initial_accum_ok w)
              eq_refl Hall) as (b & Hacc & Hcc & _ & Htake).
  { rewrite Hlen. simpl. unfold MAXCODE. lia. }
  assert (Hok : accum_ok b)
    by (eapply accumulate_ok; [apply initial_accum_ok | exact Hacc]).
  assert (Hfull : codecounter b = MAXCODE - 1).
  { rewrite Hcc, Hlen. reflexivity. }
  pose proof (full_breaks b ev Hok Hfull Hty Hval) as Hbrk.
  rewrite (scan_break a tries w k Hw Hk _ ev rest b _ Hreads Hacc Hbrk).
  rewrite length_map, Hlen. unfold text. rewrite Htake. reflexivity.
Qed.

Lemma enter_finalizes_at_any_length_witness :
  first_wake world_enter_only 0 /\
  stdout_of (fst (scan LP64 1 world_enter_only)) = [Some EmptyString].
Proof.
  assert (Hw : first_wake world_enter_only 0)
    by (split; [intros j Hj; lia | discriminate]).
  split; [exact Hw |].
  apply (enter_finalizes_at_any_length LP64 1 world_enter_only 0 [] []
           (initial_accum world_enter_only) Hw);
    [lia | reflexivity | reflexivity].
Defined.

(** C3, counterexample to the statement as the specification has it
    (no lowering of the pin on success): on the run that decodes an empty
    line the call after [printf] is [digitalWrite(SCANPIN, LOW)]. *)
Lemma success_path_lowers_pin :
  scan LP64 5 world_enter_only =
    (setup ++ [DigitalWrite SCANPIN HIGH; Poll 800; Read 24;
               Printf (Some EmptyString);
               DigitalWrite SCANPIN LOW; Usleep 200000],
     Returns 0) /\
  calls_after_print (fst (scan LP64 5 world_enter_only)) =
    [DigitalWrite SCANPIN LOW; Usleep 200000].
Proof. split; vm_compute; reflexivity. Qed.

Lemma success_lowers_pin_then_returns_witness :
  first_wake world_enter_only 0 /\
  polls_in (fst (scan LP64 5 world_enter_only)) = 1%nat.
Proof.
  assert (Hw : first_wake world_enter_only 0)
    by (split; [intros j Hj; lia | discriminate]).
  split; [exact Hw |].
  apply (success_lowers_pin_then_returns LP64 5 world_enter_only 0 []
           (press KEY_ENTER) [] (initial_accum world_enter_only)
           {| code := <[0%nat := NUL]> (code (initial_accum world_enter_only));
              codecounter := 0; shift := 0 |} Hw);
    [lia | reflexivity | reflexivity | reflexivity].
Defined.

(** C4, counterexample to the statement as the specification has it
    (63 presses alone finalize the buffer): after exactly 63 presses of a
    mapped key nothing is printed and no terminator is stored; the
    program sits in the 64th [read]. *)
Lemma full_buffer_alone_not_finalized :
  Forall (fun c => has_mapping c = true) (replicate 63%nat KEY_A) /\
  scan LP64 1 world_63_presses = (woken_try LP64 0 64, Blocks) /\
  stdout_of (fst (scan LP64 1 world_63_presses)) = [] /\
  exists b,
    accumulate (map press (replicate 63%nat KEY_A))
      (initial_accum world_63_presses) = Some b /\
    codecounter b = MAXCODE - 1 /\
    c_string (code b) = None.
Proof.
  split; [repeat constructor |].
  split; [vm_compute; reflexivity |].
  split; [vm_compute; reflexivity |].
  eexists. split; [vm_compute; reflexivity |].
  split; vm_compute; reflexivity.
Qed.

Lemma full_buffer_finalized_by_next_press_witness :
  first_wake world_64_presses 0 /\
  scan LP64 1 world_64_presses =
    (woken_try LP64 0 64
       ++ Printf (Some (string_of_list_ascii (replicate 63%nat "a"%char)))
       :: restart,
     Returns 0).
Proof.
  assert (Hw : first_wake world_64_presses 0)
    by (split; [intros j Hj; lia | discriminate]).
  split; [exact Hw |].
  apply (full_buffer_finalized_by_next_press LP64 1 world_64_presses 0
           (replicate 63%nat KEY_A) (press KEY_A) [] Hw);
    [lia | reflexivity | repeat constructor | reflexivity | reflexivity
    | reflexivity].
Defined.

(** The idle tries written out call by call. *)
Lemma idle_tries_spelled n :
  idle_tries n =
    concat (replicate n [DigitalWrite SCANPIN HIGH; Poll 800;
                         DigitalWrite SCANPIN LOW; Usleep 200000]).
Proof.
  induction n as [| n IH]; [reflexivity |].
  cbn [idle_tries replicate concat]. rewrite IH. reflexivity.
Qed.

(** C8.  With a budget of [tries] and a scanner that never answers,
    [scan] makes [tries] tries after its setup, each one being: pin
    HIGH, the poll with its 800 ms bound, pin LOW, the sleep of 200000
    microseconds.  It then returns 0 and has written nothing to either
    stream. *)
Theorem retry_exhaustion a tries w :
  (forall k, poll_at w k = PollTimeout) ->
  scan a tries w =
    ([Open device; Fdopen; IoctlGrab; WiringPiSetupGpio;
      PinModeOutput SCANPIN]
       ++ concat (replicate (Z.to_nat tries)
                    [DigitalWrite SCANPIN HIGH; Poll 800;
                     DigitalWrite SCANPIN LOW; Usleep 200000]),
     Returns 0) /\
  polls_in (fst (scan a tries w)) = Z.to_nat tries /\
  stdout_of (fst (scan a tries w)) = [] /\
  stderr_of (fst (scan a tries w)) = [].
Proof.
  intros Hidle.
  assert (Hrun : scan a tries w = (setup ++ idle_tries (Z.to_nat tries), Returns 0)).
  { unfold scan, initial_sys, initial_locals.
    destruct (Z.ltb_spec 0 tries) as [Hpos | Hneg].
    - replace (S (Z.to_nat tries)) with (Z.to_nat tries + 1)%nat by lia.
      rewrite scan_while_idle by (auto || lia).
      cbn [scan_while trycount err fst snd].
      destruct (Z.ltb_spec (0 + Z.of_nat (Z.to_nat tries)) tries); [lia |].
      cbn [andb]. rewrite app_nil_r. reflexivity.
    - replace (Z.to_nat tries) with 0%nat by lia.
      cbn [scan_while trycount err].
      destruct (Z.ltb_spec 0 tries); [lia |]. reflexivity. }
  split.
  { rewrite Hrun, idle_tries_spelled. reflexivity. }
  rewrite Hrun. cbn [fst].
  destruct (idle_tries_quiet (Z.to_nat tries)) as (I1 & I2 & I3).
  rewrite polls_in_app, stdout_of_app, stderr_of_app, I1, I2, I3.
  repeat split.
Qed.

Lemma retry_exhaustion_witness :
  (forall k, poll_at world_silent k = PollTimeout) /\
  scan LP64 3 world_silent =
    ([Open device; Fdopen; IoctlGrab; WiringPiSetupGpio;
      PinModeOutput SCANPIN;
      DigitalWrite SCANPIN HIGH; Poll 800;
      DigitalWrite SCANPIN LOW; Usleep 200000;
      DigitalWrite SCANPIN HIGH; Poll 800;
      DigitalWrite SCANPIN LOW; Usleep 200000;
      DigitalWrite SCANPIN HIGH; Poll 800;
      DigitalWrite SCANPIN LOW; Usleep 200000],
     Returns 0).
Proof.
  split; [reflexivity |].
  exact (proj1 (retry_exhaustion LP64 3 world_silent (fun _ => eq_refl))).
Defined.

Lemma accumulate_app evs1 evs2 : forall b,
  accumulate (evs1 ++ evs2) b =
    match accumulate evs1 b with
    | Some b1 => accumulate evs2 b1
    | None => None
    end.
Proof.
  induction evs1 as [| ev evs1 IH]; intros b; [reflexivity |].
  simpl. destruct (on_event b ev); auto.
Qed.

(** C10.  A key event whose value is neither 0 nor 1 (an auto-repeat
    has value 2), and the release of a key other than the two shift
    keys, leave [code], [codecounter] and [shift] as they are: the body
    goes on with the same state, so such an event anywhere in a sequence
    changes nothing of what is decoded. *)
Theorem ignored_event_changes_nothing b ev :
  (ev_value ev <> 0 /\ ev_value ev <> 1) \/
  (ev_value ev = 0 /\ is_shift_key (ev_code ev) = false) ->
  on_event b ev = Continue b /\
  forall evs1 evs2 b0,
    accumulate evs1 b0 = Some b ->
    accumulate (evs1 ++ ev :: evs2) b0 = accumulate (evs1 ++ evs2) b0.
Proof.
  intros Hev.
  assert (Hstep : on_event b ev = Continue b).
  { unfold on_event. destruct (ev_type ev =? 1); [| reflexivity].
    destruct Hev as [[H0 H1] | [H0 Hsh]].
    - destruct (Z.eqb_spec (ev_value ev) 0); [contradiction |].
      destruct (Z.eqb_spec (ev_value ev) 1); [contradiction |]. reflexivity.
    - rewrite H0, Hsh. reflexivity. }
  split; [exact Hstep |].
  intros evs1 evs2 b0 Hb. rewrite !accumulate_app, Hb. simpl.
  rewrite Hstep. reflexivity.
Qed.

Lemma ignored_event_changes_nothing_witness :
  (ev_value (autorepeat KEY_A) <> 0 /\ ev_value (autorepeat KEY_A) <> 1) /\
  on_event (initial_accum world_enter_only) (autorepeat KEY_A) =
    Continue (initial_accum world_enter_only).
Proof.
  assert (H : ev_value (autorepeat KEY_A) <> 0 /\ ev_value (autorepeat KEY_A) <> 1)
    by (simpl; lia).
  split; [exact H |].
  apply (ignored_event_changes_nothing (initial_accum world_enter_only)
           (autorepeat KEY_A) (or_introl H)).
Defined.

(** C1, what the code does when a [read] of the accumulation fails: no
    diagnostic is written and -1 is not returned.  The failed [read]
    ends the loop with [readstatus = -1]; line 222 compares it with
    [sizeof(keyevent)] as a [size_t], so the test fails and control goes
    on to [printf], which prints [code] as it stands, without a
    terminator stored by the program. *)
Theorem failed_read_is_not_reported a tries w k evs e rest b :
  first_wake w k -> Z.of_nat k < tries ->
  read_results w = map ReadFull evs ++ ReadError e :: rest ->
  accumulate evs (initial_accum w) = Some b ->
  snd (scan a tries w) <> Returns (-1) /\
  stderr_of (fst (scan a tries w)) = [] /\
  stdout_of (fst (scan a tries w)) = [c_string (code b)].
Proof.
  intros Hw Hk Hreads Hacc.
  rewrite (scan_read_error a tries w k Hw Hk evs e rest b Hreads Hacc).
  destruct (woken_try_quiet a k (S (length evs))) as (_ & Herr & Hout).
  destruct (c_string (code b)); cbn [fst snd];
    rewrite stderr_of_app, stdout_of_app, Herr, Hout;
    repeat split; discriminate.
Qed.

Lemma failed_read_is_not_reported_witness :
  first_wake world_read_fails 0 /\
  scan LP64 5 world_read_fails =
    (woken_try LP64 0 2 ++ Printf (Some "a"%string) :: restart, Returns 0) /\
  stderr_of (fst (scan LP64 5 world_read_fails)) = [].
Proof.
  assert (Hw : first_wake world_read_fails 0)
    by (split; [intros j Hj; lia | discriminate]).
  split; [exact Hw |].
  split; [vm_compute; reflexivity |].
  apply (failed_read_is_not_reported LP64 5 world_read_fails 0 [press KEY_A] 19 []
           {| code := <[0%nat := "a"%char]> (code (initial_accum world_read_fails));
              codecounter := 1; shift := 0 |} Hw);
    [lia | reflexivity | reflexivity].
Defined.

(** C6, what the code does on a hard error: when a [read] fails after
    the poll came back, and [code] happens to hold a null character,
    [main] returns 0, the status of a success. *)
Theorem failed_read_exits_zero a argv w k evs e rest b line :
  first_wake w k -> Z.of_nat k < main_tries a argv ->
  read_results w = map ReadFull evs ++ ReadError e :: rest ->
  accumulate evs (initial_accum w) = Some b ->
  c_string (code b) = Some line ->
  snd (main a argv w) = Returns 0.
Proof.
  intros Hw Hk Hreads Hacc Hline. unfold main.
  rewrite (scan_read_error a _ w k Hw Hk evs e rest b Hreads Hacc), Hline.
  reflexivity.
Qed.

Lemma failed_read_exits_zero_witness :
  first_wake world_read_fails 0 /\
  snd (main LP64 ["scan"; "5"]%string world_read_fails) = Returns 0.
Proof.
  assert (Hw : first_wake world_read_fails 0)
    by (split; [intros j Hj; lia | discriminate]).
  split; [exact Hw |].
  apply (failed_read_exits_zero LP64 ["scan"; "5"]%string world_read_fails 0
           [press KEY_A] 19 []
           {| code := <[0%nat := "a"%char]> (code (initial_accum world_read_fails));
              codecounter := 1; shift := 0 |} "a"%string Hw);
    [reflexivity | reflexivity | reflexivity | reflexivity].
Defined.

(** ** No store outside the buffer, no run out of fuel *)

Lemma try_once_ok a w s l :
  accum_ok (acc l) ->
  match snd (try_once a w s l) with
  | Falls l1 _ => accum_ok (acc l1) /\ trycount l1 = trycount l
  | Leaves r => r <> StoresOutside /\ r <> OutOfFuel
  end.
Proof.
  intros Hok. unfold try_once, do_poll.
  destruct (negb _).
  - match goal with |- context [read_loop a ?rs ?d ?e ?l1] =>
      pose proof (read_loop_ok a rs d e l1 Hok) as Hloop;
      pose proof (read_loop_frame a rs d e l1) as Hframe;
      destruct (read_loop a rs d e l1) as [t [l2 s2 | l2 |]] end;
      cbn [snd] in *; [| split; discriminate | contradiction].
    destruct (_ <? _);
      [destruct (int_holds_pointer a); cbn [snd]; split; discriminate |].
    destruct (c_string _); cbn [snd]; [| split; discriminate].
    split; [exact Hloop |]. destruct (Hframe l2 s2 eq_refl) as [_ ->].
    reflexivity.
  - destruct (_ <? _);
      [destruct (int_holds_pointer a); cbn [snd]; split; discriminate |].
    cbn [snd]. split; [exact Hok | reflexivity].
Qed.

Lemma scan_while_no_fault a w tries fuel : forall s l,
  accum_ok (acc l) ->
  snd (scan_while fuel a w tries s l) <> StoresOutside.
Proof.
  induction fuel as [| fuel IH]; intros s l Hok; simpl; [discriminate |].
  destruct (_ && _); [| discriminate].
  pose proof (try_once_ok a w s l Hok) as Htry.
  destruct (try_once a w s l) as [t [l1 s1 | r]]; cbn [snd] in Htry.
  - specialize (IH s1 (set_trycount (trycount l1 + 1) l1) (proj1 Htry)).
    destruct (scan_while fuel a w tries s1 _). exact IH.
  - exact (proj1 Htry).
Qed.

(** The fuel [scan] starts with is enough: the loop is left by its own
    test or by a [return]. *)
Lemma scan_while_fuel a w tries fuel : forall s l,
  accum_ok (acc l) ->
  (Z.to_nat (tries - trycount l) < fuel)%nat ->
  snd (scan_while fuel a w tries s l) <> OutOfFuel.
Proof.
  induction fuel as [| fuel IH]; intros s l Hok Hfuel; [lia |]. simpl.
  destruct (Z.ltb_spec (trycount l) tries); [| discriminate].
  destruct (err l =? 0); [| discriminate]. cbn [andb].
  pose proof (try_once_ok a w s l Hok) as Htry.
  destruct (try_once a w s l) as [t [l1 s1 | r]]; cbn [snd] in Htry.
  - destruct Htry as [Hok1 Htc].
    specialize (IH s1 (set_trycount (trycount l1 + 1) l1) Hok1).
    destruct (scan_while fuel a w tries s1 _). apply IH.
    cbn [trycount set_trycount]. lia.
  - exact (proj2 Htry).
Qed.

Lemma scan_terminates a tries w : snd (scan a tries w) <> OutOfFuel.
Proof.
  unfold scan.
  pose proof (scan_while_fuel a w tries (S (Z.to_nat tries))
                (initial_sys w) (initial_locals w) (initial_accum_ok w)) as H.
  destruct (scan_while _ _ _ _ _ _). apply H. simpl. lia.
Qed.

(** C9.  [shift] and [codecounter] start at 0.  Whatever events have
    been processed, [code] has its 64 elements, [codecounter] lies
    between 0 and [MAXCODE - 1] and [shift] is 0 or 1, and the body run
    on one more event stores inside the array, the terminator included.
    So the read loop, whatever the reads give, never stores outside
    [code], and neither does [scan]. *)
Theorem code_buffer_stays_in_bounds a tries w :
  shift (initial_accum w) = 0 /\
  codecounter (initial_accum w) = 0 /\
  (forall evs b,
      accumulate evs (initial_accum w) = Some b ->
      buffer_ok b /\
      forall ev,
        match on_event b ev with
        | Continue b' | Break b' => buffer_ok b'
        | OutOfBounds => False
        end) /\
  (forall reads d e l,
      acc l = initial_accum w ->
      match snd (read_loop a reads d e l) with
      | Exits l2 _ | Stuck l2 => buffer_ok (acc l2)
      | Faults => False
      end) /\
  snd (scan a tries w) <> StoresOutside.
Proof.
  split; [reflexivity |]. split; [reflexivity |]. split; [| split].
  - intros evs b Hacc.
    assert (Hok : accum_ok b)
      by (eapply accumulate_ok; [apply initial_accum_ok | exact Hacc]).
    split; [exact (proj1 Hok) |]. intros ev.
    pose proof (on_event_ok b ev Hok) as Hstep.
    destruct (on_event b ev); [exact (proj1 Hstep) | exact (proj1 Hstep) | exact Hstep].
  - intros reads d e l Hl.
    assert (Hok : accum_ok (acc l)) by (rewrite Hl; apply initial_accum_ok).
    pose proof (read_loop_ok a reads d e l Hok) as Hloop.
    destruct (snd (read_loop a reads d e l));
      [exact (proj1 Hloop) | exact (proj1 Hloop) | exact Hloop].
  - unfold scan.
    pose proof (scan_while_no_fault a w tries (S (Z.to_nat tries))
                  (initial_sys w) (initial_locals w) (initial_accum_ok w)) as H.
    destruct (scan_while _ _ _ _ _ _). exact H.
Qed.

Lemma code_buffer_stays_in_bounds_witness :
  accumulate (map press (replicate 63%nat KEY_A))
    (initial_accum world_64_presses) <> None /\
  snd (scan LP64 1 world_64_presses) <> StoresOutside.
Proof.
  split; [vm_compute; discriminate |].
  apply (code_buffer_stays_in_bounds LP64 1 world_64_presses).
Defined.

(** ** Diagnostics *)

(** One try writes no diagnostic or the one of line 223. *)
Lemma try_once_stderr a w s l :
  Forall (fun r => fst r = "Error occurred scanning: "%string)
    (stderr_of (fst (try_once a w s l))).
Proof.
  unfold try_once, do_poll. cbn [err set_err].
  destruct (Z.eqb_spec (poll_ret (poll_at w (polls_done s))) 0) as [Hz | Hnz];
    cbn [negb].
  - rewrite Hz. cbn. constructor.
  - match goal with |- context [read_loop a ?rs ?d ?e ?l1] =>
      destruct (read_loop_calls a rs d e l1) as [n Hn];
      destruct (read_loop a rs d e l1) as [t x] end.
    cbn [fst] in Hn. subst t.
    destruct (reads_quiet (S n) (sizeof_keyevent a)) as (_ & Hq & _).
    destruct x as [l2 s2 | l2 |].
    + destruct (_ <? _).
      * destruct (int_holds_pointer a); cbn [fst];
          rewrite !stderr_of_app, Hq; cbn; repeat constructor.
      * destruct (c_string _); cbn [fst]; rewrite !stderr_of_app, Hq;
          cbn; constructor.
    + cbn [fst]. rewrite !stderr_of_app, Hq. cbn. constructor.
    + cbn [fst]. rewrite !stderr_of_app, Hq. cbn. constructor.
Qed.

(** The diagnostic of line 229 is never written: a negative [err] makes
    the test of line 188 true, so line 228 is reached with [err = 0]
    only. *)
Lemma scan_while_stderr a w tries fuel : forall s l,
  Forall (fun r => fst r = "Error occurred scanning: "%string)
    (stderr_of (fst (scan_while fuel a w tries s l))).
Proof.
  induction fuel as [| fuel IH]; intros s l; simpl; [constructor |].
  destruct (_ && _); [| constructor].
  pose proof (try_once_stderr a w s l) as Htry.
  destruct (try_once a w s l) as [t [l1 s1 | r]]; cbn [fst] in Htry;
    [| exact Htry].
  specialize (IH s1 (set_trycount (trycount l1 + 1) l1)).
  destruct (scan_while fuel a w tries s1 _) as [t' r]. cbn [fst] in *.
  rewrite !stderr_of_app. apply Forall_app. split; [exact Htry |].
  exact IH.
Qed.

(** C2, what the code does when [poll] fails: the test of line 188,
    [if (err = poll(...))], holds for -1 as for 1, so the read loop is
    entered, a [read] follows the failed [poll], and the branch of line
    228 with its polling diagnostic is not taken.  No run of [scan]
    writes that diagnostic. *)
Theorem poll_error_enters_read_loop a tries w k e :
  first_wake w k -> Z.of_nat k < tries ->
  poll_at w k = PollError e ->
  (exists t,
      fst (scan a tries w) =
        setup ++ idle_tries k
          ++ [DigitalWrite SCANPIN HIGH; Poll 800; Read (sizeof_keyevent a)]
          ++ t) /\
  Forall (fun r => fst r = "Error occurred scanning: "%string)
    (stderr_of (fst (scan a tries w))).
Proof.
  intros Hw Hk Hpoll. split.
  - rewrite (scan_wakes a tries w k Hw Hk).
    rewrite try_once_woken by apply Hw. cbv zeta.
    match goal with |- context [read_loop a ?rs ?d ?e ?l1] =>
      destruct (read_loop_calls a rs d e l1) as [n Hn];
      destruct (read_loop a rs d e l1) as [t x] end.
    cbn [fst] in Hn. subst t. rewrite replicate_S.
    destruct x as [l2 s2 | l2 |];
      [destruct (_ <? _);
         [destruct (int_holds_pointer a) | destruct (c_string _)] | |];
      cbn [fst]; eexists; rewrite <- ?app_assoc; cbn [app];
      try rewrite app_nil_r; reflexivity.
  - unfold scan.
    pose proof (scan_while_stderr a w tries (S (Z.to_nat tries))
                  (initial_sys w) (initial_locals w)) as H.
    destruct (scan_while _ _ _ _ _ _) as [t r]. cbn [fst] in *.
    rewrite stderr_of_app. exact H.
Qed.

Lemma poll_error_enters_read_loop_witness :
  first_wake world_poll_fails 0 /\
  scan LP64 5 world_poll_fails =
    (setup ++ [DigitalWrite SCANPIN HIGH; Poll 800; Read 24; Read 24;
               Printf (Some "a"%string);
               DigitalWrite SCANPIN LOW; Usleep 200000],
     Returns 0) /\
  Forall (fun r => fst r = "Error occurred scanning: "%string)
    (stderr_of (fst (scan LP64 5 world_poll_fails))).
Proof.
  assert (Hw : first_wake world_poll_fails 0)
    by (split; [intros j Hj; lia | discriminate]).
  split; [exact Hw |].
  split; [vm_compute; reflexivity |].
  apply (poll_error_enters_read_loop LP64 5 world_poll_fails 0 4 Hw);
    [lia | reflexivity].
Defined.

(** ** The argument of main *)








(** ** Short records *)

(** A [read] that returns fewer bytes than a record does not end the
    loop: the body runs on what [keyevent] holds.  Here a [read] of zero
    bytes leaves the press of the A key in place and the character is
    decoded a second time. *)
Example short_read_is_processed :
  scan LP64 3
    (test_world "#" (fun _ => PollReady)
       [ReadFull (press KEY_A); ReadShort 0 (press KEY_A);
        ReadFull (press KEY_ENTER)]) =
    (woken_try LP64 0 3 ++ Printf (Some "aa"%string) :: restart, Returns 0).
Proof. vm_compute. reflexivity. Qed.

(** The branch of line 222 is taken when the loop is left by [break] on
    a short record; where an [int] holds a pointer [scan] then returns
    the constant -1. *)
Example short_record_at_break_is_reported :
  scan ILP32 3
    (test_world "#" (fun _ => PollReady)
       [ReadFull (press KEY_A); ReadShort 12 (press KEY_ENTER)]) =
    (woken_try ILP32 0 2
       ++ [FprintfStderr "Error occurred scanning: " 0;
           DigitalWrite SCANPIN LOW],
     Returns (-1)).
Proof. vm_compute. reflexivity. Qed.

(** * Further properties *)

(** ** The tables of keymap *)

Lemma keymap_shift_norm c s :
  keymap c s = keymap c (if s =? 0 then 0 else 1).
Proof. unfold keymap. destruct (s =? 0); reflexivity. Qed.

(** A property checked on every code from [lo] on, [n] of them, holds
    for each code of that range. *)
Lemma range_forallb (P : Z -> bool) (lo n : nat) :
  forallb P (map Z.of_nat (seq lo n)) = true ->
  forall c, Z.of_nat lo <= c < Z.of_nat (lo + n) -> P c = true.
Proof.
  intros H c Hc. rewrite List.forallb_forall in H. apply H.
  apply List.in_map_iff. exists (Z.to_nat c). split; [lia |].
  apply List.in_seq. lia.
Qed.

Lemma keymap_range c s :
  keymap c s <> NUL -> KEY_1 <= c <= KEY_SPACE.
Proof.
  unfold keymap. destruct (negb (s =? 0));
    (destruct c as [| p | p];
     [intros H; exfalso; apply H; reflexivity
     | do 6 (try destruct p as [p | p |]);
       intros H; first [exfalso; apply H; reflexivity | lia]
     | intros H; exfalso; apply H; reflexivity]).
Qed.

(** X1.  Only the codes from [KEY_1] (2) to [KEY_SPACE] (57) have an
    entry: every other code, the negative ones included, falls to the
    [default] of either [switch] and gives the null character. *)
Theorem keymap_mapped_in_range c s :
  keymap c s <> NUL -> KEY_1 <= c <= KEY_SPACE.
Proof. apply keymap_range. Qed.

Lemma keymap_mapped_in_range_witness :
  keymap KEY_A 0 <> NUL /\ KEY_1 <= KEY_A <= KEY_SPACE.
Proof.
  assert (H : keymap KEY_A 0 <> NUL) by discriminate.
  split; [exact H |].
  apply (keymap_mapped_in_range KEY_A 0 H).
Defined.

(** Outside the range both tables give the null character. *)
Lemma keymap_out_of_range c s :
  c < KEY_1 \/ KEY_SPACE < c -> keymap c s = NUL.
Proof.
  intros Hc. destruct (ascii_dec (keymap c s) NUL) as [E | N]; [exact E |].
  apply keymap_range in N. lia.
Qed.

(** A check made on the codes 2 to 57 with the shift state clear and
    set, and true of the null character, holds of every code and every
    value of [shift]. *)
Lemma keymap_all (P : Z -> Z -> bool) :
  forallb (fun c => P c 0 && P c 1) (map Z.of_nat (seq 2 56)) = true ->
  forall c s, KEY_1 <= c <= KEY_SPACE -> P c (if s =? 0 then 0 else 1) = true.
Proof.
  intros H c s Hc.
  pose proof (range_forallb _ 2 56 H c ltac:(lia)) as Hp.
  apply andb_true_iff in Hp as [H0 H1].
  destruct (s =? 0); assumption.
Qed.

Lemma keymap_tables_agree c s :
  keymap c s = NUL <-> keymap c 0 = NUL.
Proof.
  destruct (Z_le_gt_dec KEY_1 c) as [Hlo |];
    [destruct (Z_le_gt_dec c KEY_SPACE) as [Hhi |] |];
    try (rewrite !keymap_out_of_range by lia; tauto).
  rewrite (keymap_shift_norm c s).
  pose proof (keymap_all
                (fun c s => Bool.eqb (Ascii.eqb (keymap c s) NUL)
                                     (Ascii.eqb (keymap c 0) NUL))
                ltac:(vm_compute; reflexivity) c s (conj Hlo Hhi)) as H.
  cbv beta in H. apply Bool.eqb_prop in H.
  destruct (Ascii.eqb_spec (keymap c (if s =? 0 then 0 else 1)) NUL);
    destruct (Ascii.eqb_spec (keymap c 0) NUL); try discriminate; tauto.
Qed.

(** X2.  The two tables have entries for the same keys: a code has a
    character with the shift state set, whatever non-zero value [shift]
    holds, exactly when it has one with the shift state clear. *)
Theorem keymap_same_keys_in_both_tables c s :
  keymap c s = NUL <-> keymap c 0 = NUL.
Proof. apply keymap_tables_agree. Qed.

Lemma keymap_null_or_printable c s :
  keymap c s = NUL \/ printable (keymap c s) = true.
Proof.
  destruct (Z_le_gt_dec KEY_1 c) as [Hlo |];
    [destruct (Z_le_gt_dec c KEY_SPACE) as [Hhi |] |];
    try (left; apply keymap_out_of_range; lia).
  rewrite (keymap_shift_norm c s).
  pose proof (keymap_all
                (fun c s => Ascii.eqb (keymap c s) NUL || printable (keymap c s))
                ltac:(vm_compute; reflexivity) c s (conj Hlo Hhi)) as H.
  cbv beta in H. apply orb_true_iff in H as [H | H]; [left | right; exact H].
  apply Ascii.eqb_eq. exact H.
Qed.

(** X3.  What [keymap] returns is the null character or a printable
    character of ASCII (codes 32 to 126): the decoder never produces a
    control character or a byte above 126. *)
Theorem keymap_printable c s :
  keymap c s = NUL \/ printable (keymap c s) = true.
Proof. apply keymap_null_or_printable. Qed.

(** X4.  Every printable character of ASCII, from the space (32) to the
    tilde (126), is returned for some key and some shift state, as the
    header of the file promises. *)
Theorem keymap_covers_printable ch :
  printable ch = true -> exists c s, keymap c s = ch.
Proof.
  intros Hp.
  assert (Hall :
    forallb (fun n =>
      existsb (fun c => Ascii.eqb (keymap c 0) (ascii_of_nat n)
                        || Ascii.eqb (keymap c 1) (ascii_of_nat n))
              (map Z.of_nat (seq 2 56)))
      (seq 32 95) = true) by (vm_compute; reflexivity).
  rewrite List.forallb_forall in Hall.
  specialize (Hall (nat_of_ascii ch)).
  rewrite ascii_nat_embedding in Hall.
  unfold printable, char_code in Hp. apply andb_true_iff in Hp as [Hlo Hhi].
  apply Z.leb_le in Hlo, Hhi.
  assert (Hin : List.In (nat_of_ascii ch) (seq 32 95)).
  { apply List.in_seq. unfold nat_of_ascii. lia. }
  apply Hall in Hin. apply List.existsb_exists in Hin as (c & _ & Hc).
  apply orb_true_iff in Hc as [Hc | Hc]; apply Ascii.eqb_eq in Hc; eauto.
Qed.

Lemma keymap_covers_printable_witness :
  printable "~" = true /\ exists c s, keymap c s = "~"%char.
Proof.
  split; [reflexivity |].
  apply (keymap_covers_printable "~"%char). reflexivity.
Defined.

(** X5.  A character tells the key and the shift state it came from:
    two keys never share a character, and a key gives the same character
    in both tables only when it is the space bar. *)
Theorem keymap_injective c1 s1 c2 s2 :
  keymap c1 s1 <> NUL -> keymap c1 s1 = keymap c2 s2 ->
  c1 = c2 /\ (c1 = KEY_SPACE \/ (s1 = 0 <-> s2 = 0)).
Proof.
  intros Hn Heq.
  pose proof (keymap_range c1 s1 Hn) as H1.
  assert (Hn2 : keymap c2 s2 <> NUL) by (rewrite <- Heq; exact Hn).
  pose proof (keymap_range c2 s2 Hn2) as H2.
  rewrite (keymap_shift_norm c1 s1), (keymap_shift_norm c2 s2) in Heq.
  rewrite (keymap_shift_norm c1 s1) in Hn.
  set (ok := fun c1 b1 c2 b2 =>
               Ascii.eqb (keymap c1 b1) NUL
               || negb (Ascii.eqb (keymap c1 b1) (keymap c2 b2))
               || ((c1 =? c2) && ((c1 =? KEY_SPACE) || (b1 =? b2)))).
  pose proof (keymap_all
                (fun c1 b1 =>
                   forallb (fun c2 => ok c1 b1 c2 0 && ok c1 b1 c2 1)
                     (map Z.of_nat (seq 2 56)))
                ltac:(vm_compute; reflexivity) c1 s1 H1) as Hc1.
  cbv beta in Hc1.
  pose proof (range_forallb _ 2 56 Hc1 c2 ltac:(lia)) as Hc2.
  cbv beta in Hc2. apply andb_true_iff in Hc2 as [Hk0 Hk1].
  assert (Hok : ok c1 (if s1 =? 0 then 0 else 1) c2 (if s2 =? 0 then 0 else 1) = true)
    by (destruct (s2 =? 0); assumption).
  unfold ok in Hok.
  apply orb_true_iff in Hok as [Hok | Hok];
    [apply orb_true_iff in Hok as [Hok | Hok] |].
  - apply Ascii.eqb_eq in Hok. contradiction.
  - rewrite Heq, Ascii.eqb_refl in Hok. discriminate.
  - apply andb_true_iff in Hok as [Hc Hs]. apply Z.eqb_eq in Hc.
    split; [exact Hc |].
    apply orb_true_iff in Hs as [Hs | Hs]; [left; apply Z.eqb_eq; exact Hs |].
    right. destruct (Z.eqb_spec s1 0), (Z.eqb_spec s2 0);
      try discriminate; tauto.
Qed.

Lemma keymap_injective_witness :
  keymap KEY_A 1 <> NUL /\ keymap KEY_A 1 = keymap KEY_A 7 /\
  KEY_A = KEY_A /\ (KEY_A = KEY_SPACE \/ (1 = 0 <-> 7 = 0)).
Proof.
  assert (H : keymap KEY_A 1 <> NUL) by discriminate.
  split; [exact H |]. split; [reflexivity |].
  apply (keymap_injective KEY_A 1 KEY_A 7 H). reflexivity.
Defined.

(** X6.  On the 26 letter keys the table for the shift state set holds
    the upper-case letter of the lower-case one in the other table. *)
Theorem keymap_letter_case c s :
  s <> 0 ->
  char_code "a" <= char_code (keymap c 0) <= char_code "z" ->
  char_code (keymap c s) = char_code (keymap c 0) - 32.
Proof.
  intros Hs Hletter.
  assert (Hn : keymap c 0 <> NUL).
  { intros E. rewrite E in Hletter. vm_compute in Hletter.
    destruct Hletter as [H _]. apply H. reflexivity. }
  pose proof (keymap_range c 0 Hn) as Hc.
  rewrite (keymap_shift_norm c s). destruct (Z.eqb_spec s 0); [contradiction |].
  pose proof (range_forallb
                (fun c => negb ((97 <=? char_code (keymap c 0))
                                && (char_code (keymap c 0) <=? 122))
                          || (char_code (keymap c 1)
                              =? char_code (keymap c 0) - 32))
                2 56 ltac:(vm_compute; reflexivity) c ltac:(lia)) as H.
  cbv beta in H. change (char_code "a") with 97 in Hletter.
  change (char_code "z") with 122 in Hletter.
  destruct (Z.leb_spec 97 (char_code (keymap c 0))); [| lia].
  destruct (Z.leb_spec (char_code (keymap c 0)) 122); [| lia].
  simpl in H. apply Z.eqb_eq in H. exact H.
Qed.

Lemma keymap_letter_case_witness :
  1 <> 0 /\
  char_code "a" <= char_code (keymap KEY_Q 0) <= char_code "z" /\
  char_code (keymap KEY_Q 1) = char_code "Q".
Proof.
  assert (H : char_code "a" <= char_code (keymap KEY_Q 0) <= char_code "z")
    by (vm_compute; split; discriminate).
  split; [lia |]. split; [exact H |].
  apply (keymap_letter_case KEY_Q 1); [lia | exact H].
Defined.

(** ** The loop body *)

(** The four things the body can do to a state within bounds: nothing;
    set or clear [shift]; store the terminator and [break]; append the
    character of the key. *)
Lemma on_event_cases b ev :
  accum_ok b ->
  on_event b ev = Continue b \/
  (is_shift_key (ev_code ev) = true /\
   exists s, (s = 0 \/ s = 1) /\
     on_event b ev =
       Continue {| code := code b; codecounter := codecounter b;
                   shift := s |}) \/
  on_event b ev =
    Break {| code := <[Z.to_nat (codecounter b) := NUL]> (code b);
             codecounter := codecounter b; shift := shift b |} \/
  (is_shift_key (ev_code ev) = false /\
   keymap (ev_code ev) (shift b) <> NUL /\
   codecounter b < MAXCODE - 1 /\
   on_event b ev =
     Continue {| code := <[Z.to_nat (codecounter b) :=
                            keymap (ev_code ev) (shift b)]> (code b);
                 codecounter := codecounter b + 1; shift := shift b |}).
Proof.
  intros [(Hlen & Hcc & _) _]. unfold on_event.
  rewrite !store_Some by (unfold MAXCODE in *; lia).
  destruct (ev_type ev =? 1); [| auto].
  destruct (ev_value ev =? 0) eqn:E0; cbn [andb].
  - destruct (is_shift_key (ev_code ev)) eqn:Esh.
    + right. left. split; [reflexivity |]. exists 0. auto.
    + destruct (ev_value ev =? 1) eqn:E1; [| auto].
      apply Z.eqb_eq in E0, E1. lia.
  - destruct (ev_value ev =? 1); [| auto].
    destruct (Z.eqb_spec (codecounter b) (MAXCODE - 1)); cbn [orb]; [auto |].
    destruct (ev_code ev =? 28); [auto |].
    destruct (is_shift_key (ev_code ev)) eqn:Esh.
    + right. left. split; [reflexivity |]. exists 1. auto.
    + destruct (Ascii.eqb_spec (keymap (ev_code ev) (shift b)) NUL);
        cbn [negb]; [auto |].
      right. right. right. repeat split; try assumption. lia.
Qed.

(** X7.  Only the two shift keys act on [shift]: after an event of any
    other key, whether the body goes on or leaves the loop, [shift]
    holds what it held. *)
Theorem shift_changed_only_by_shift_keys b ev :
  is_shift_key (ev_code ev) = false ->
  match on_event b ev with
  | Continue b' | Break b' => shift b' = shift b
  | OutOfBounds => True
  end.
Proof.
  intros Hsh. unfold on_event. rewrite Hsh, andb_false_r.
  destruct (ev_type ev =? 1); [| reflexivity].
  destruct (ev_value ev =? 1); [| reflexivity].
  destruct (_ || _).
  - destruct (store _ _ _); [reflexivity | exact I].
  - destruct (negb _); [| reflexivity].
    destruct (store _ _ _); [reflexivity | exact I].
Qed.

Lemma shift_changed_only_by_shift_keys_witness :
  is_shift_key (ev_code (press KEY_A)) = false /\
  match on_event (initial_accum world_enter_only) (press KEY_A) with
  | Continue b' | Break b' => shift b' = 0
  | OutOfBounds => True
  end.
Proof.
  split; [reflexivity |].
  exact (shift_changed_only_by_shift_keys (initial_accum world_enter_only)
           (press KEY_A) eq_refl).
Defined.

(** A press of a mapped key with room left appends the character of the
    table that the shift state selects. *)
Lemma mapped_press_appends_shift b c :
  accum_ok b -> codecounter b < MAXCODE - 1 -> has_mapping c = true ->
  on_event b (press c) =
    Continue {| code := <[Z.to_nat (codecounter b) := keymap c (shift b)]> (code b);
                codecounter := codecounter b + 1; shift := shift b |}.
Proof.
  intros [(_ & Hcc & _) _] Hroom Hmap. unfold on_event, press. cbn.
  rewrite (has_mapping_not_shift c Hmap), (has_mapping_not_enter c Hmap).
  destruct (Z.eqb_spec (codecounter b) (MAXCODE - 1)); [lia |]. cbn.
  assert (Hn : keymap c (shift b) <> NUL).
  { intros E. apply keymap_tables_agree in E. unfold has_mapping in Hmap.
    rewrite E in Hmap. discriminate Hmap. }
  rewrite (eqb_NUL_false _ Hn). cbn.
  rewrite store_Some by (unfold MAXCODE in *; lia). reflexivity.
Qed.

Lemma accumulate_mapped_shift cs : forall b,
  accum_ok b ->
  Forall (fun c => has_mapping c = true) cs ->
  codecounter b + Z.of_nat (length cs) <= MAXCODE - 1 ->
  exists b',
    accumulate (map press cs) b = Some b' /\
    codecounter b' = codecounter b + Z.of_nat (length cs) /\
    shift b' = shift b /\
    length (code b') = length (code b) /\
    take (Z.to_nat (codecounter b')) (code b') =
      take (Z.to_nat (codecounter b)) (code b)
        ++ map (fun c => keymap c (shift b)) cs.
Proof.
  induction cs as [| c cs IH]; intros b Hok Hall Hfit.
  - exists b. simpl. rewrite Z.add_0_r, app_nil_r. auto.
  - apply Forall_cons in Hall as [Hc Hall].
    cbn [length] in Hfit. cbn [map accumulate].
    pose proof (on_event_ok b (press c) Hok) as Hok1.
    rewrite mapped_press_appends_shift in * by (assumption || lia).
    destruct (IH _ Hok1 Hall) as (b' & Hrun & Hcc' & Hsh' & Hlen' & Htake).
    { cbn [codecounter]. lia. }
    exists b'. cbn [codecounter code shift length] in *.
    destruct Hok as [(Hlen & Hcc & _) _]. unfold MAXCODE in *.
    rewrite length_insert in Hlen'.
    repeat split; try assumption; [lia |].
    rewrite Htake.
    replace (Z.to_nat (codecounter b + 1)) with (S (Z.to_nat (codecounter b))) by lia.
    rewrite (take_S_r _ _ (keymap c (shift b)))
      by (apply list_lookup_insert_eq; lia).
    rewrite take_insert_ge by lia.
    rewrite <- app_assoc. reflexivity.
Qed.

(** X8.  Typing with a shift key held: a press of either shift key,
    presses of mapped keys and the release of the shift key append the
    characters of the shifted table and leave [shift] clear, whatever
    [shift] held before, as long as the characters fit. *)
Theorem shifted_typing_appends_shifted_characters b sk cs :
  accum_ok b -> is_shift_key sk = true ->
  Forall (fun c => has_mapping c = true) cs ->
  codecounter b < MAXCODE - 1 ->
  codecounter b + Z.of_nat (length cs) <= MAXCODE - 1 ->
  exists b',
    accumulate (press sk :: map press cs ++ [release sk]) b = Some b' /\
    shift b' = 0 /\
    codecounter b' = codecounter b + Z.of_nat (length cs) /\
    take (Z.to_nat (codecounter b')) (code b') =
      take (Z.to_nat (codecounter b)) (code b)
        ++ map (fun c => keymap c 1) cs.
Proof.
  intros Hok Hsk Hall Hroom Hfit.
  set (b1 := {| code := code b; codecounter := codecounter b; shift := 1 |}).
  assert (Hdown : on_event b (press sk) = Continue b1).
  { unfold on_event, press. cbn. rewrite Hsk.
    destruct (Z.eqb_spec (codecounter b) (MAXCODE - 1)); [lia |].
    destruct (Z.eqb_spec sk 28) as [-> | _]; [discriminate Hsk | reflexivity]. }
  assert (Hok1 : accum_ok b1).
  { pose proof (on_event_ok b (press sk) Hok) as H. rewrite Hdown in H. exact H. }
  destruct (accumulate_mapped_shift cs b1 Hok1 Hall Hfit)
    as (b2 & Hrun & Hcc & Hsh & _ & Htake).
  exists {| code := code b2; codecounter := codecounter b2; shift := 0 |}.
  cbn [accumulate]. rewrite Hdown, accumulate_app, Hrun. cbn [accumulate].
  assert (Hup : on_event b2 (release sk) =
                Continue {| code := code b2; codecounter := codecounter b2;
                            shift := 0 |}).
  { unfold on_event, release. cbn. rewrite Hsk. reflexivity. }
  rewrite Hup. repeat split; assumption.
Qed.

Lemma shifted_typing_appends_shifted_characters_witness :
  accum_ok (initial_accum world_enter_only) /\
  exists b',
    accumulate (press KEY_LEFTSHIFT :: map press [KEY_A; KEY_1]
                  ++ [release KEY_LEFTSHIFT])
      (initial_accum world_enter_only) = Some b' /\
    shift b' = 0 /\
    codecounter b' = 2 /\
    take (Z.to_nat (codecounter b')) (code b') = ["A"; "!"]%char.
Proof.
  split; [apply initial_accum_ok |].
  apply (shifted_typing_appends_shifted_characters
           (initial_accum world_enter_only) KEY_LEFTSHIFT [KEY_A; KEY_1]
           (initial_accum_ok world_enter_only));
    [reflexivity | repeat constructor | reflexivity | vm_compute; discriminate].
Defined.

Lemma take_prefix_le {A} (l1 l2 : list A) (n m : nat) :
  (n <= m)%nat -> take m l1 = take m l2 -> take n l1 = take n l2.
Proof.
  intros Hle H. rewrite <- (Nat.min_l n m Hle), <- !take_take, H. reflexivity.
Qed.

Lemma on_event_keeps_prefix b ev b' :
  accum_ok b ->
  on_event b ev = Continue b' \/ on_event b ev = Break b' ->
  codecounter b <= codecounter b' /\
  take (Z.to_nat (codecounter b)) (code b') =
    take (Z.to_nat (codecounter b)) (code b).
Proof.
  intros Hok Hstep.
  destruct (on_event_cases b ev Hok)
    as [H | [(_ & s & _ & H) | [H | (_ & _ & _ & H)]]];
    rewrite H in Hstep; destruct Hstep as [[= <-] | [= <-]];
    cbn [code codecounter]; split; try lia; try reflexivity;
    apply take_insert_ge; lia.
Qed.

(** X9.  What is decoded is never taken back: while the loop goes on,
    and on the event that leaves it, [codecounter] does not decrease
    and the characters already in [code] stay as they are. *)
Theorem decoded_text_only_grows evs : forall b b',
  accum_ok b -> accumulate evs b = Some b' ->
  codecounter b <= codecounter b' /\
  take (Z.to_nat (codecounter b)) (code b') =
    take (Z.to_nat (codecounter b)) (code b) /\
  forall ev b'',
    on_event b' ev = Break b'' ->
    codecounter b <= codecounter b'' /\
    take (Z.to_nat (codecounter b)) (code b'') =
      take (Z.to_nat (codecounter b)) (code b).
Proof.
  assert (Hmono : forall evs b b',
             accum_ok b -> accumulate evs b = Some b' ->
             codecounter b <= codecounter b' /\
             take (Z.to_nat (codecounter b)) (code b') =
               take (Z.to_nat (codecounter b)) (code b)).
  { clear evs. induction evs as [| ev evs IH]; intros b b' Hok Hacc.
    - injection Hacc as <-. split; [lia | reflexivity].
    - cbn [accumulate] in Hacc.
      destruct (on_event b ev) as [b1 | |] eqn:Hstep; try discriminate.
      pose proof (on_event_ok b ev Hok) as Hok1. rewrite Hstep in Hok1.
      destruct (on_event_keeps_prefix b ev b1 Hok (or_introl Hstep)) as [Hle Hpre].
      destruct (IH b1 b' Hok1 Hacc) as [Hle' Hpre'].
      destruct Hok as [(_ & Hcc & _) _].
      split; [lia |].
      rewrite <- Hpre.
      apply (take_prefix_le _ _ _ (Z.to_nat (codecounter b1))); [lia | exact Hpre']. }
  intros b b' Hok Hacc. destruct (Hmono evs b b' Hok Hacc) as [Hle Hpre].
  split; [exact Hle |]. split; [exact Hpre |].
  intros ev b'' Hbrk.
  assert (Hok' : accum_ok b') by (eapply accumulate_ok; eassumption).
  destruct (on_event_keeps_prefix b' ev b'' Hok' (or_intror Hbrk)) as [Hle' Hpre'].
  destruct Hok as [(_ & Hcc & _) _].
  split; [lia |].
  rewrite <- Hpre.
  apply (take_prefix_le _ _ _ (Z.to_nat (codecounter b'))); [lia | exact Hpre'].
Qed.

Lemma decoded_text_only_grows_witness :
  accum_ok (initial_accum world_enter_only) /\
  accumulate [press KEY_A; autorepeat KEY_A; press KEY_S]
    (initial_accum world_enter_only) =
    Some {| code := <[1%nat := "s"%char]>
                      (<[0%nat := "a"%char]> (code (initial_accum world_enter_only)));
            codecounter := 2; shift := 0 |} /\
  codecounter (initial_accum world_enter_only) <= 2.
Proof.
  split; [apply initial_accum_ok |]. split; [reflexivity |].
  apply (decoded_text_only_grows [press KEY_A; autorepeat KEY_A; press KEY_S]
           (initial_accum world_enter_only) _
           (initial_accum_ok world_enter_only) eq_refl).
Defined.

Lemma length_string_of_list_ascii l :
  String.length (string_of_list_ascii l) = length l.
Proof. induction l as [| c l IH]; [reflexivity |]. simpl. rewrite IH. reflexivity. Qed.

Lemma on_event_keeps_printable b ev b' :
  accum_ok b ->
  Forall (fun c => printable c = true)
    (take (Z.to_nat (codecounter b)) (code b)) ->
  on_event b ev = Continue b' ->
  Forall (fun c => printable c = true)
    (take (Z.to_nat (codecounter b')) (code b')).
Proof.
  intros Hok Hpr Hstep. pose proof Hok as [(Hlen & Hcc & _) _].
  unfold MAXCODE in *.
  destruct (on_event_cases b ev Hok)
    as [H | [(_ & s & _ & H) | [H | (_ & Hn & _ & H)]]];
    rewrite H in Hstep; try discriminate; injection Hstep as <-;
    cbn [code codecounter]; try exact Hpr.
  replace (Z.to_nat (codecounter b + 1)) with (S (Z.to_nat (codecounter b))) by lia.
  rewrite (take_S_r _ _ (keymap (ev_code ev) (shift b)))
    by (apply list_lookup_insert_eq; lia).
  rewrite take_insert_ge by lia.
  apply Forall_app. split; [exact Hpr |]. repeat constructor.
  destruct (keymap_null_or_printable (ev_code ev) (shift b)); [contradiction | assumption].
Qed.

Lemma accumulate_keeps_printable evs : forall b b',
  accum_ok b ->
  Forall (fun c => printable c = true)
    (take (Z.to_nat (codecounter b)) (code b)) ->
  accumulate evs b = Some b' ->
  Forall (fun c => printable c = true)
    (take (Z.to_nat (codecounter b')) (code b')).
Proof.
  induction evs as [| ev evs IH]; intros b b' Hok Hpr Hacc.
  - injection Hacc as <-. exact Hpr.
  - cbn [accumulate] in Hacc.
    destruct (on_event b ev) as [b1 | |] eqn:Hstep; try discriminate.
    pose proof (on_event_ok b ev Hok) as Hok1. rewrite Hstep in Hok1.
    apply (IH b1 b' Hok1); [| exact Hacc].
    exact (on_event_keeps_printable b ev b1 Hok Hpr Hstep).
Qed.

(** X10.  The text decoded in a run of [scan], which is the line it
    prints when the loop is left by [break], has [codecounter]
    characters, at most 63, and each of them is a printable character of
    ASCII, whatever events the device sends and whatever the stack held. *)
Theorem decoded_text_is_short_and_printable w evs b :
  accumulate evs (initial_accum w) = Some b ->
  String.length (text b) = Z.to_nat (codecounter b) /\
  (String.length (text b) <= 63)%nat /\
  Forall (fun c => printable c = true) (list_ascii_of_string (text b)).
Proof.
  intros Hacc.
  assert (Hok : accum_ok b)
    by (eapply accumulate_ok; [apply initial_accum_ok | exact Hacc]).
  destruct Hok as [(Hlen & Hcc & _) _]. unfold MAXCODE in *.
  assert (Hl : String.length (text b) = Z.to_nat (codecounter b)).
  { unfold text. rewrite length_string_of_list_ascii, length_take. lia. }
  split; [exact Hl |]. split; [lia |].
  unfold text. rewrite list_ascii_of_string_of_list_ascii.
  apply (accumulate_keeps_printable evs (initial_accum w) b
           (initial_accum_ok w)); [constructor | exact Hacc].
Qed.

Lemma decoded_text_is_short_and_printable_witness :
  accumulate [press KEY_LEFTSHIFT; press KEY_A; release KEY_LEFTSHIFT; press KEY_S]
    (initial_accum world_enter_only) =
    Some {| code := <[1%nat := "s"%char]>
                      (<[0%nat := "A"%char]> (code (initial_accum world_enter_only)));
            codecounter := 2; shift := 0 |} /\
  (String.length "As" <= 63)%nat /\
  Forall (fun c => printable c = true) ["A"; "s"]%char.
Proof.
  split; [reflexivity |].
  exact (proj2 (decoded_text_is_short_and_printable world_enter_only
                  [press KEY_LEFTSHIFT; press KEY_A; release KEY_LEFTSHIFT;
                   press KEY_S]
                  {| code := <[1%nat := "s"%char]>
                               (<[0%nat := "A"%char]>
                                  (code (initial_accum world_enter_only)));
                     codecounter := 2; shift := 0 |} eq_refl)).
Defined.

(** X11.  Events that are silently dropped beside those of C10: any
    event whose type is not [EV_KEY] (the scanner sends [EV_SYN] and
    [EV_MSC] records between key events), and, while the buffer has
    room, the press of a key that has no entry in the tables and is
    neither Enter nor a shift key.  The body goes on with [code],
    [codecounter] and [shift] unchanged. *)
Theorem other_events_and_unmapped_keys_are_dropped b ev :
  ev_type ev <> EV_KEY \/
  (ev_value ev = 1 /\ has_mapping (ev_code ev) = false /\
   ev_code ev <> KEY_ENTER /\ is_shift_key (ev_code ev) = false /\
   codecounter b <> MAXCODE - 1) ->
  on_event b ev = Continue b.
Proof.
  intros [Hty | (Hval & Hmap & Hent & Hsh & Hroom)]; unfold on_event.
  - destruct (Z.eqb_spec (ev_type ev) 1); [contradiction | reflexivity].
  - destruct (ev_type ev =? 1); [| reflexivity].
    rewrite Hval, Hsh. cbn.
    destruct (Z.eqb_spec (codecounter b) (MAXCODE - 1)); [contradiction |].
    destruct (Z.eqb_spec (ev_code ev) 28); [contradiction |]. cbn.
    assert (E : keymap (ev_code ev) (shift b) = NUL).
    { apply keymap_tables_agree. unfold has_mapping in Hmap.
      destruct (Ascii.eqb_spec (keymap (ev_code ev) 0) NUL);
        [assumption | discriminate Hmap]. }
    rewrite E. reflexivity.
Qed.

Lemma other_events_and_unmapped_keys_are_dropped_witness :
  (ev_value (press 1) = 1 /\ has_mapping (ev_code (press 1)) = false /\
   ev_code (press 1) <> KEY_ENTER /\ is_shift_key (ev_code (press 1)) = false /\
   codecounter (initial_accum world_enter_only) <> MAXCODE - 1) /\
  on_event (initial_accum world_enter_only) (press 1) =
    Continue (initial_accum world_enter_only).
Proof.
  assert (H : ev_value (press 1) = 1 /\ has_mapping (ev_code (press 1)) = false /\
              ev_code (press 1) <> KEY_ENTER /\
              is_shift_key (ev_code (press 1)) = false /\
              codecounter (initial_accum world_enter_only) <> MAXCODE - 1)
    by (repeat split; discriminate).
  split; [exact H |].
  apply (other_events_and_unmapped_keys_are_dropped
           (initial_accum world_enter_only) (press 1) (or_intror H)).
Defined.

(** ** The ways scan can end *)

Lemma pin_from_app t1 : forall cur t2,
  pin_from cur (t1 ++ t2) = pin_from (pin_from cur t1) t2.
Proof.
  induction t1 as [| c t1 IH]; intros cur t2; [reflexivity |].
  destruct c; simpl; apply IH.
Qed.

Lemma pin_from_reads n c cur : pin_from cur (replicate n (Read c)) = cur.
Proof. induction n as [| n IH]; [reflexivity | exact IH]. Qed.

Lemma pin_from_idle_tries n cur :
  pin_from cur (idle_tries n) =
    match n with O => cur | S _ => Some LOW end.
Proof.
  revert cur. induction n as [| n IH]; intros cur; [reflexivity |].
  cbn [idle_tries]. rewrite pin_from_app, IH. destruct n; reflexivity.
Qed.

Lemma pin_after_woken_try a k n : pin_after (woken_try a k n) = Some HIGH.
Proof.
  unfold pin_after, woken_try.
  rewrite !pin_from_app, pin_from_reads. reflexivity.
Qed.

(** Either the first [n] polls all time out or one of them is the first
    that does not. *)
Lemma wake_or_idle w (n : nat) :
  (forall j, (j < n)%nat -> poll_at w j = PollTimeout) \/
  exists k, (k < n)%nat /\ first_wake w k.
Proof.
  induction n as [| n [Hidle | (k & Hk & Hw)]].
  - left. intros j Hj. lia.
  - destruct (poll_at w n) eqn:Hn.
    + right. exists n. split; [lia |]. split; [exact Hidle | congruence].
    + left. intros j Hj. destruct (Nat.eq_dec j n) as [-> | Hne];
        [exact Hn | apply Hidle; lia].
    + right. exists n. split; [lia |]. split; [exact Hidle | congruence].
  - right. exists k. split; [lia | exact Hw].
Qed.

(** The run in which every poll the budget allows times out. *)
Lemma scan_all_idle a tries w :
  (forall j, (j < Z.to_nat tries)%nat -> poll_at w j = PollTimeout) ->
  scan a tries w = (setup ++ idle_tries (Z.to_nat tries), Returns 0).
Proof.
  intros Hidle. unfold scan, initial_sys, initial_locals.
  destruct (Z.ltb_spec 0 tries) as [Hpos | Hneg].
  - replace (S (Z.to_nat tries)) with (Z.to_nat tries + 1)%nat by lia.
    rewrite scan_while_idle by (assumption || lia).
    cbn [scan_while trycount err fst snd].
    destruct (Z.ltb_spec (0 + Z.of_nat (Z.to_nat tries)) tries); [lia |].
    cbn [andb]. rewrite app_nil_r. reflexivity.
  - replace (Z.to_nat tries) with 0%nat by lia.
    cbn [scan_while trycount err].
    destruct (Z.ltb_spec 0 tries); [lia |]. reflexivity.
Qed.

(** The ways a run can end once a poll has come back with something:
    the diagnostic of line 223 and -1; one line printed, the scanner
    restarted and 0; [printf] on a buffer without terminator; a [read]
    that never returns; the [fprintf] of line 223 on a pointer that did
    not fit the [int] of the undeclared [strerror]. *)
Lemma woken_shape a tries w k :
  first_wake w k -> Z.of_nat k < tries ->
  exists n,
    (exists e,
        scan a tries w =
          (woken_try a k (S n)
             ++ [FprintfStderr "Error occurred scanning: " e;
                 DigitalWrite SCANPIN LOW],
           Returns (-1))) \/
    (exists line,
        scan a tries w =
          (woken_try a k (S n) ++ Printf (Some line) :: restart, Returns 0)) \/
    scan a tries w = (woken_try a k (S n) ++ [Printf None], PrintsUnterminated) \/
    scan a tries w = (woken_try a k (S n), Blocks) \/
    scan a tries w = (woken_try a k (S n), DiesInFprintf).
Proof.
  intros Hw Hk. rewrite (scan_wakes a tries w k Hw Hk).
  rewrite try_once_woken by apply Hw. cbv zeta.
  match goal with |- context [read_loop a ?rs ?d ?e ?l1] =>
    destruct (read_loop_calls a rs d e l1) as [n Hn];
    pose proof (read_loop_ok a rs d e l1 (initial_accum_ok w)) as Hok;
    destruct (read_loop a rs d e l1) as [t x] end.
  cbn [fst snd] in Hn, Hok. subst t. exists n. unfold woken_try.
  destruct x as [l2 s2 | l2 |]; [| | contradiction].
  - destruct (_ <? _).
    + destruct (int_holds_pointer a).
      * left. eexists. rewrite <- ?app_assoc. reflexivity.
      * right. right. right. right. rewrite <- ?app_assoc. reflexivity.
    + destruct (c_string _).
      * right. left. eexists. rewrite <- ?app_assoc. reflexivity.
      * right. right. left. rewrite <- ?app_assoc. reflexivity.
  - right. right. right. left. rewrite <- ?app_assoc. reflexivity.
Qed.

(** Case analysis on how a run of [scan] ends: all polls idle, or one of
    the endings of a woken try. *)
Ltac scan_cases a tries w k n :=
  let Hidle := fresh "Hidle" in
  let Hk := fresh "Hk" in
  let Hw := fresh "Hw" in
  let e := fresh "e" in
  let line := fresh "line" in
  destruct (wake_or_idle w (Z.to_nat tries)) as [Hidle | (k & Hk & Hw)];
  [ rewrite (scan_all_idle a tries w Hidle)
  | destruct (woken_shape a tries w k Hw ltac:(lia))
      as (n & [(e & ->) | [(line & ->) | [-> | [-> | ->]]]]) ];
  cbn [fst snd].

Ltac trace_facts a tries k n :=
  let I1 := fresh "I1" in let I2 := fresh "I2" in let I3 := fresh "I3" in
  let W1 := fresh "W1" in let W2 := fresh "W2" in let W3 := fresh "W3" in
  destruct (idle_tries_quiet (Z.to_nat tries)) as (I1 & I2 & I3);
  try (destruct (woken_try_quiet a k (S n)) as (W1 & W2 & W3));
  rewrite ?polls_in_app, ?stdout_of_app, ?stderr_of_app,
    ?I1, ?I2, ?I3, ?W1, ?W2, ?W3;
  cbn [polls_in stdout_of stderr_of setup restart app length Nat.add].

(** X12.  With a budget of zero or less [scan] opens the device, grabs
    it and sets the pin up, and returns 0 at once: no poll, no [read],
    no [digitalWrite]; the scanner is never switched on. *)
Theorem no_budget_no_try a tries w :
  tries <= 0 -> scan a tries w = (setup, Returns 0).
Proof.
  intros Hle. unfold scan. replace (Z.to_nat tries) with 0%nat by lia.
  cbn [scan_while initial_locals trycount err].
  destruct (Z.ltb_spec 0 tries); [lia |]. reflexivity.
Qed.

Lemma no_budget_no_try_witness :
  -3 <= 0 /\ scan LP64 (-3) world_enter_only = (setup, Returns 0).
Proof.
  split; [lia |]. apply (no_budget_no_try LP64 (-3) world_enter_only). lia.
Defined.

(** X13.  The budget bounds the work: a run of [scan] makes at most
    [tries] polls, whatever the device does, and the outer loop is left
    within the fuel that [tries] passes need. *)
Theorem polls_bounded_by_budget a tries w :
  (polls_in (fst (scan a tries w)) <= Z.to_nat tries)%nat /\
  snd (scan a tries w) <> OutOfFuel.
Proof.
  scan_cases a tries w k n; trace_facts a tries k n;
    (split; [lia | discriminate]).
Qed.

(** X14.  The first try whose poll does not time out is the last one:
    whatever the reads give then, the run has made [k + 1] polls when it
    ends, and the rest of the budget is not used. *)
Theorem woken_try_is_the_last a tries w k :
  first_wake w k -> Z.of_nat k < tries ->
  polls_in (fst (scan a tries w)) = S k.
Proof.
  intros Hw Hk.
  destruct (woken_shape a tries w k Hw Hk)
    as (n & [(e & ->) | [(line & ->) | [-> | [-> | ->]]]]);
    cbn [fst]; trace_facts a tries k n; lia.
Qed.

Lemma woken_try_is_the_last_witness :
  first_wake world_read_fails 0 /\
  polls_in (fst (scan LP64 5 world_read_fails)) = 1%nat.
Proof.
  assert (Hw : first_wake world_read_fails 0)
    by (split; [intros j Hj; lia | discriminate]).
  split; [exact Hw |].
  apply (woken_try_is_the_last LP64 5 world_read_fails 0 Hw). lia.
Defined.

(** X15.  A run of [scan] writes at most one thing: one line on
    standard output or one diagnostic on standard error, never both and
    never two of either. *)
Theorem at_most_one_output a tries w :
  (length (stdout_of (fst (scan a tries w)))
   + length (stderr_of (fst (scan a tries w))) <= 1)%nat.
Proof.
  scan_cases a tries w k n; trace_facts a tries k n; lia.
Qed.

(** X16.  The status [main] returns is 0 or -1, whatever the arguments
    and the device.  It is -1 exactly on the runs that wrote the
    diagnostic of line 223, and those runs printed no line. *)
Theorem exit_status_is_0_or_minus_1 a argv w v :
  snd (main a argv w) = Returns v ->
  (v = 0 /\ stderr_of (fst (main a argv w)) = []) \/
  (v = -1 /\ stdout_of (fst (main a argv w)) = [] /\
   exists e, stderr_of (fst (main a argv w)) =
               [("Error occurred scanning: "%string, e)]).
Proof.
  unfold main. generalize (main_tries a argv). intros tries.
  scan_cases a tries w k n; trace_facts a tries k n;
    intros [= <-] || discriminate; eauto.
Qed.

Lemma exit_status_is_0_or_minus_1_witness :
  snd (main ILP32 ["scan"; "3"]%string world_short_enter) = Returns (-1) /\
  ((-1 = 0 /\
    stderr_of (fst (main ILP32 ["scan"; "3"]%string world_short_enter)) = []) \/
   (-1 = -1 /\
    stdout_of (fst (main ILP32 ["scan"; "3"]%string world_short_enter)) = [] /\
    exists e,
      stderr_of (fst (main ILP32 ["scan"; "3"]%string world_short_enter)) =
        [("Error occurred scanning: "%string, e)])).
Proof.
  split; [reflexivity |].
  apply (exit_status_is_0_or_minus_1 ILP32 ["scan"; "3"]%string
           world_short_enter (-1)).
  reflexivity.
Defined.

(** X17.  [scan] does not return with the scanner switched on: when it
    returns, the last [digitalWrite] of the run, if there was one, drove
    the pin LOW. *)
Theorem pin_is_low_on_return a tries w v :
  snd (scan a tries w) = Returns v ->
  pin_after (fst (scan a tries w)) <> Some HIGH.
Proof.
  scan_cases a tries w k n; intros Hret; try discriminate Hret;
    unfold pin_after; rewrite ?pin_from_app.
  - rewrite pin_from_idle_tries. destruct (Z.to_nat tries); discriminate.
  - discriminate.
  - discriminate.
Qed.

Lemma pin_is_low_on_return_witness :
  snd (scan LP64 5 world_read_fails) = Returns 0 /\
  pin_after (fst (scan LP64 5 world_read_fails)) <> Some HIGH.
Proof.
  split; [reflexivity |].
  apply (pin_is_low_on_return LP64 5 world_read_fails 0). reflexivity.
Defined.

(** ** Short records *)


(** Reads that do not fail, short ones included, on which the body does
    not leave the loop are taken one after the other. *)
Lemma read_loop_deliveries a rs : forall evs rest d e l b,
  deliveries rs = Some evs ->
  accumulate evs (acc l) = Some b ->
  exists l',
    acc l' = b /\
    read_loop a (rs ++ rest) d e l =
      (replicate (length rs) (Read (sizeof_keyevent a))
         ++ fst (read_loop a rest d e l'),
       snd (read_loop a rest d e l')).
Proof.
  induction rs as [| r rs IH]; intros evs rest d e l b Hdel Hacc.
  - injection Hdel as <-. injection Hacc as <-. exists l.
    split; [reflexivity |]. simpl. destruct (read_loop a rest d e l). reflexivity.
  - cbn [deliveries] in Hdel.
    destruct (delivered r) as [ev |] eqn:Hr; [| discriminate].
    destruct (deliveries rs) as [evs' |] eqn:Hrs; [| discriminate].
    injection Hdel as <-. cbn [accumulate] in Hacc.
    destruct (on_event (acc l) ev) as [b1 | |] eqn:Hstep; try discriminate.
    assert (Hread : read_into r (keyevent l) = ev /\ (read_ret a r >=? 0) = true
                    /\ read_errno r e = e).
    { destruct r as [ev0 | m ev0 | e0]; cbn in Hr |- *.
      - injection Hr as <-. repeat split. apply sizeof_keyevent_geb.
      - destruct (m >=? 0); [| discriminate]. injection Hr as <-. auto.
      - discriminate. }
    destruct Hread as (Hinto & Hret & Herrno).
    destruct (IH evs' rest d e
                (set_acc b1 (set_readstatus (read_ret a r) (set_keyevent ev l)))
                b eq_refl Hacc) as (l' & Hb & Hrun).
    exists l'. split; [exact Hb |].
    cbn [app read_loop]. rewrite Hinto, Herrno.
    change (readstatus (set_readstatus ?v _)) with v. rewrite Hret.
    change (acc (set_readstatus _ (set_keyevent _ l))) with (acc l).
    change (keyevent (set_readstatus _ (set_keyevent ?x _))) with x.
    rewrite Hstep, Hrun. reflexivity.
Qed.

Section AfterPrefix.

(** In this section the first [k] polls time out, the next one does not
    and the budget allows that try; the reads begin with [rs], none of
    which fails, and the body goes on after each of the events [evs]
    they deliver, reaching the state [b]. *)
Variables (a : abi) (tries : Z) (w : world) (k : nat).
Variables (rs rest : list read_result) (evs : list input_event) (b : accum).
Hypothesis Hwake : first_wake w k.
Hypothesis Hbudget : Z.of_nat k < tries.
Hypothesis Hreads : read_results w = rs ++ rest.
Hypothesis Hdelivered : deliveries rs = Some evs.
Hypothesis Hstate : accumulate evs (initial_accum w) = Some b.

Lemma scan_after_prefix :
  exists l',
    acc l' = b /\
    scan a tries w =
      match read_loop a rest (S k)
              (poll_errno (poll_at w k) (errno_on_entry w)) l' with
      | (t, Exits l2 s2) =>
          if to_size_t a (readstatus l2) <? sizeof_keyevent a then
            if int_holds_pointer a then
              (woken_try a k (length rs) ++ t
                 ++ [FprintfStderr "Error occurred scanning: " (errno s2);
                     DigitalWrite SCANPIN LOW],
               Returns (-1))
            else (woken_try a k (length rs) ++ t, DiesInFprintf)
          else
            match c_string (code (acc l2)) with
            | Some line =>
                (woken_try a k (length rs) ++ t
                   ++ Printf (Some line) :: restart, Returns 0)
            | None =>
                (woken_try a k (length rs) ++ t ++ [Printf None],
                 PrintsUnterminated)
            end
      | (t, Stuck _) => (woken_try a k (length rs) ++ t, Blocks)
      | (t, Faults) => (woken_try a k (length rs) ++ t, StoresOutside)
      end.
Proof.
  rewrite (scan_wakes a tries w k Hwake Hbudget).
  rewrite try_once_woken by apply Hwake. cbv zeta.
  cbn [sys_at polls_done reads_left errno]. rewrite Hreads.
  destruct (read_loop_deliveries a rs evs rest (S k)
              (poll_errno (poll_at w k) (errno_on_entry w))
              (set_err (poll_ret (poll_at w k)) (locals_at w k)) b
              Hdelivered Hstate) as (l' & Hb & ->).
  exists l'. split; [exact Hb |].
  destruct (read_loop a rest _ _ l') as [t [l2 s2 | l2 |]]; cbn [fst snd];
    unfold woken_try; [| rewrite <- ?app_assoc; reflexivity ..].
  destruct (_ <? _);
    [destruct (int_holds_pointer a); rewrite <- ?app_assoc; reflexivity |].
  destruct (c_string _); rewrite <- ?app_assoc; reflexivity.
Qed.

End AfterPrefix.



(** X19.  A [read] that returns fewer bytes than a record, zero
    included, does not end the accumulation: the body runs on what
    [keyevent] then holds, as it does after a whole record.  So when
    such reads are among those that keep the loop going and a whole
    record then leaves it by [break], the line printed is the text
    decoded from all of them. *)
Theorem short_reads_are_decoded a tries w k rs evs b ev rest b' :
  first_wake w k -> Z.of_nat k < tries ->
  read_results w = rs ++ ReadFull ev :: rest ->
  deliveries rs = Some evs ->
  accumulate evs (initial_accum w) = Some b ->
  on_event b ev = Break b' ->
  scan a tries w =
    (woken_try a k (S (length rs)) ++ Printf (Some (text b)) :: restart,
     Returns 0).
Proof.
  intros Hw Hk Hreads Hdel Hacc Hbrk.
  destruct (scan_after_prefix a tries w k rs _ evs b Hw Hk Hreads Hdel Hacc)
    as (l' & Hb & ->).
  cbn [read_loop read_ret read_into read_errno].
  change (readstatus (set_readstatus ?v _)) with v.
  rewrite sizeof_keyevent_geb.
  change (acc (set_readstatus _ (set_keyevent _ l'))) with (acc l').
  change (keyevent (set_readstatus _ (set_keyevent ?x _))) with x.
  rewrite Hb, Hbrk.
  change (readstatus (set_acc _ (set_readstatus ?v _))) with v.
  rewrite full_read_passes.
  change (acc (set_acc ?v _)) with v.
  rewrite (break_text b ev b'); [| | exact Hbrk].
  - unfold woken_try. rewrite replicate_S_end, <- !app_assoc. reflexivity.
  - eapply accumulate_ok; [apply initial_accum_ok | exact Hacc].
Qed.

Lemma short_reads_are_decoded_witness :
  first_wake world_empty_read 0 /\
  scan LP64 3 world_empty_read =
    (woken_try LP64 0 3 ++ Printf (Some "aa"%string) :: restart, Returns 0).
Proof.
  assert (Hw : first_wake world_empty_read 0)
    by (split; [intros j Hj; lia | discriminate]).
  split; [exact Hw |].
  exact (short_reads_are_decoded LP64 3 world_empty_read 0
           [ReadFull (press KEY_A); ReadShort 0 (press KEY_A)]
           [press KEY_A; press KEY_A]
           {| code := <[1%nat := "a"%char]>
                        (<[0%nat := "a"%char]> (replicate 64%nat "#"%char));
              codecounter := 2; shift := 0 |}
           (press KEY_ENTER) []
           {| code := <[2%nat := NUL]>
                        (<[1%nat := "a"%char]>
                           (<[0%nat := "a"%char]> (replicate 64%nat "#"%char)));
              codecounter := 2; shift := 0 |}
           Hw ltac:(lia) eq_refl eq_refl eq_refl eq_refl).
Defined.

(** X20.  The read loop has no time limit of its own: when the device
    falls silent after reads that kept the loop going, [scan] stays in
    [read] with the scanner switched on, and has printed nothing. *)
Theorem silent_device_blocks_with_scanner_on a tries w k evs b :
  first_wake w k -> Z.of_nat k < tries ->
  deliveries (read_results w) = Some evs ->
  accumulate evs (initial_accum w) = Some b ->
  scan a tries w = (woken_try a k (S (length (read_results w))), Blocks) /\
  pin_after (fst (scan a tries w)) = Some HIGH /\
  stdout_of (fst (scan a tries w)) = [] /\
  stderr_of (fst (scan a tries w)) = [].
Proof.
  intros Hw Hk Hdel Hacc.
  assert (Hrun : scan a tries w =
                 (woken_try a k (S (length (read_results w))), Blocks)).
  { destruct (scan_after_prefix a tries w k (read_results w) [] evs b Hw Hk
                (eq_sym (app_nil_r _)) Hdel Hacc) as (l' & Hb & ->).
    cbn [read_loop]. unfold woken_try.
    rewrite replicate_S_end, <- !app_assoc. reflexivity. }
  rewrite Hrun. cbn [fst].
  destruct (woken_try_quiet a k (S (length (read_results w)))) as (_ & E & O).
  rewrite pin_after_woken_try, E, O. auto.
Qed.

Lemma silent_device_blocks_with_scanner_on_witness :
  first_wake world_63_presses 0 /\
  scan LP64 1 world_63_presses = (woken_try LP64 0 64, Blocks) /\
  pin_after (fst (scan LP64 1 world_63_presses)) = Some HIGH.
Proof.
  assert (Hw : first_wake world_63_presses 0)
    by (split; [intros j Hj; lia | discriminate]).
  split; [exact Hw |].
  destruct (silent_device_blocks_with_scanner_on LP64 1 world_63_presses 0
              (replicate 63%nat (press KEY_A))
              {| code := replicate 63%nat "a"%char ++ ["#"%char];
                 codecounter := 63; shift := 0 |} Hw)
    as (Hrun & Hpin & _);
    [lia | reflexivity | vm_compute; reflexivity |].
  split; [exact Hrun | exact Hpin].
Defined.
